(** * The router-store bridge (modules/router-store/src/router_store_module.ts)

    A shallow embedding of [StoreRouterConnectingModule]: the object that keeps
    the Angular router and the ngrx store in agreement.  The router, the store
    and the serializer are collaborators of the module; they appear here as an
    interface ([StoreLike], [RouterStateSerializer]) and as the events they
    deliver to the module. *)

From Stdlib Require Import String List Bool Arith Lia.
Import ListNotations.
Open Scope string_scope.
Open Scope list_scope.

Set Implicit Arguments.

(** ** Action type discriminants (lines 18, 39, 61) *)

Definition ROUTER_NAVIGATION : string := "ROUTER_NAVIGATION".
Definition ROUTER_CANCEL : string := "ROUTER_CANCEL".
Definition ROUTER_ERROR : string := "ROUTE_ERROR".

(** * The model *)

Section Data.

(** What the source imports from [@angular/router] and leaves opaque: the
    tree of activated routes inside a snapshot, the part of the store state
    that belongs to the host application, and the error object a failed
    navigation carries. *)
Variables (Tree App Err : Type).

(** ** Data

    [RouterStateSnapshot]: the module reads nothing but [url]. *)
Record RouterStateSnapshot := {
  snap_url : string;
  snap_root : Tree
}.

(** [RoutesRecognized], with the four fields line 228-233 rebuilds.  The
    rebuilt object takes its [state] from the serializer, which can hand
    back [undefined]. *)
Record RoutesRecognized := {
  rr_id : nat;
  rr_url : string;
  rr_urlAfterRedirects : string;
  rr_state : option RouterStateSnapshot
}.

Record NavigationCancel := {
  nc_id : nat;
  nc_url : string;
  nc_reason : string
}.

Record NavigationError := {
  ne_id : nat;
  ne_url : string;
  ne_error : Err
}.

(** [RouterReducerState] (line 88).  [state] is copied from a payload's
    [routerState], which is [undefined] until the first pre-activation. *)
Record RouterReducerState := {
  rrs_state : option RouterStateSnapshot;
  rrs_navigationId : nat
}.

(** The store state, an object keyed by reducer name.  The module reads the
    key ['routerReducer'] only; [None] is a missing (falsy) entry. *)
Record StoreState := {
  st_routerReducer : option RouterReducerState;
  st_app : App
}.

(** The three payload shapes (lines 23, 44, 66).  [routerState] and
    [storeState] are copies of fields of the module, [None] while the field
    is still [undefined]. *)
Inductive Payload :=
| NavigationPayload (routerState : option RouterStateSnapshot)
                    (event : RoutesRecognized)
| CancelPayload (routerState : option RouterStateSnapshot)
                (storeState : option StoreState)
                (event : NavigationCancel)
| ErrorPayload (routerState : option RouterStateSnapshot)
               (storeState : option StoreState)
               (event : NavigationError).

(** The object literal [{ type, payload }] of line 256. *)
Record RouterAction := {
  type : string;
  payload : Payload
}.

(** The fields of [StoreRouterConnectingModule] (lines 158-163). *)
Record Bridge := {
  routerState : option RouterStateSnapshot;
  storeState : option StoreState;
  lastRoutesRecognized : option RoutesRecognized;
  dispatchTriggeredByRouter : bool;
  navigationTriggeredByDispatch : bool
}.

(** ** Collaborators

    [RouterStateSerializer<RouterStateSnapshot>] (line 168): an abstract
    class with the one method [serialize].  Its type asks for a snapshot;
    line 232 hands it the field [this.routerState], [undefined] included,
    and [serialize_undefined] is what the method does then: [None] when it
    throws, [Some v] when it returns [v]. *)
Class RouterStateSerializer := {
  serialize : RouterStateSnapshot -> RouterStateSnapshot;
  serialize_undefined : option (option RouterStateSnapshot)
}.

(** What [store.dispatch] does before it comes back: the store moves to
    [reply_store], hands the states [reply_emits] to its subscribers one
    after the other, and then returns, or throws when [reply_throws] is set
    (a reducer or another subscriber threw). *)
Record Reply (Sigma : Type) := {
  reply_store : Sigma;
  reply_emits : list StoreState;
  reply_throws : bool
}.

(** [Store<any>] as the module uses it: [subscribe] (line 187), which may
    call the listener at once with the states it lists, and [dispatch]
    (line 256). *)
Class StoreLike (Sigma : Type) := {
  subscribe : Sigma -> list StoreState;
  dispatch : Sigma -> RouterAction -> Reply Sigma
}.

Variable Sigma : Type.

(** The module together with what it can reach: [router.url] and the
    store. *)
Record Machine := {
  this : Bridge;
  router_url : string;
  store : Sigma
}.

(** The two calls the module makes on its collaborators. *)
Inductive Call :=
| Dispatch (a : RouterAction)
| NavigateByUrl (u : string).

(** A call, with the fields of the module at the moment it is made. *)
Record Logged := {
  call : Call;
  fields : Bridge
}.

Inductive Exn := TypeError | StoreThrew.

Inductive Outcome (A : Type) :=
| Returned (a : A)
| Thrown (e : Exn).
Arguments Thrown {A} e.

(** The result of running a method: how it ended, the machine it leaves and
    the calls it made, oldest first. *)
Record Run (A : Type) := {
  outcome : Outcome A;
  final : Machine;
  log : list Logged
}.

Definition M (A : Type) : Type := Machine -> Run A.

(** The events [router.events] carries: the three the module tells apart
    and every other one ([NavigationStart], [NavigationEnd], ...). *)
Inductive RouterEvent :=
| IsRoutesRecognized (e : RoutesRecognized)
| IsNavigationCancel (e : NavigationCancel)
| IsNavigationError (e : NavigationError)
| IsOther (name : string).

(** What the collaborators do to the module after construction. *)
Inductive Input :=
| Preactivation (rs : RouterStateSnapshot)
    (* the router calls [hooks.beforePreactivation] *)
| RouterEmits (e : RouterEvent)
    (* [router.events] delivers [e] *)
| StoreEmits (sigma : Sigma) (s : StoreState)
    (* an action of the host application moves the store to [sigma],
       which hands [s] to the listener *)
| UrlBecomes (u : string).
    (* the router activates a route: [router.url] changes *)

End Data.

(** Type arguments are left to inference. *)
Arguments NavigationPayload {Tree App Err} routerState event.
Arguments CancelPayload {Tree App Err} routerState storeState event.
Arguments ErrorPayload {Tree App Err} routerState storeState event.
Arguments Dispatch {Tree App Err} a.
Arguments NavigateByUrl {Tree App Err} u.
Arguments Returned {A} a.
Arguments Thrown {A} e.
Arguments IsRoutesRecognized {Tree Err} e.
Arguments IsNavigationCancel {Tree Err} e.
Arguments IsNavigationError {Tree Err} e.
Arguments IsOther {Tree Err} name.
Arguments Preactivation {Tree App Err Sigma} rs.
Arguments RouterEmits {Tree App Err Sigma} e.
Arguments StoreEmits {Tree App Err Sigma} sigma s.
Arguments UrlBecomes {Tree App Err Sigma} u.
Arguments snap_url {Tree} r.
Arguments snap_root {Tree} r.
Arguments rr_id {Tree} r.
Arguments rr_url {Tree} r.
Arguments rr_urlAfterRedirects {Tree} r.
Arguments rr_state {Tree} r.
Arguments ne_id {Err} n.
Arguments ne_url {Err} n.
Arguments ne_error {Err} n.
Arguments rrs_state {Tree} r.
Arguments rrs_navigationId {Tree} r.
Arguments st_routerReducer {Tree App} s.
Arguments st_app {Tree App} s.
Arguments type {Tree App Err} r.
Arguments payload {Tree App Err} r.
Arguments routerState {Tree App} b.
Arguments storeState {Tree App} b.
Arguments lastRoutesRecognized {Tree App} b.
Arguments dispatchTriggeredByRouter {Tree App} b.
Arguments navigationTriggeredByDispatch {Tree App} b.
Arguments serialize {Tree} {RouterStateSerializer} _.
Arguments serialize_undefined {Tree} {RouterStateSerializer}.
Arguments reply_store {Tree App Sigma} r.
Arguments reply_emits {Tree App Sigma} r.
Arguments reply_throws {Tree App Sigma} r.
Arguments subscribe {Tree App Err Sigma} {StoreLike} _.
Arguments dispatch {Tree App Err Sigma} {StoreLike} _ _.
Arguments this {Tree App Sigma} m.
Arguments router_url {Tree App Sigma} m.
Arguments store {Tree App Sigma} m.
Arguments call {Tree App Err} l.
Arguments fields {Tree App Err} l.
Arguments outcome {Tree App Err Sigma A} r.
Arguments final {Tree App Err Sigma A} r.
Arguments log {Tree App Err Sigma A} r.

Section Semantics.

Context {Tree App Err Sigma : Type}.
Context {serializer : RouterStateSerializer Tree}.
Context {the_store : StoreLike Tree App Err Sigma}.

Local Abbreviation RouterStateSnapshot := (RouterStateSnapshot Tree).
Local Abbreviation RoutesRecognized := (RoutesRecognized Tree).
Local Abbreviation NavigationError := (NavigationError Err).
Local Abbreviation RouterReducerState := (RouterReducerState Tree).
Local Abbreviation StoreState := (StoreState Tree App).
Local Abbreviation Payload := (Payload Tree App Err).
Local Abbreviation RouterAction := (RouterAction Tree App Err).
Local Abbreviation Bridge := (Bridge Tree App).
Local Abbreviation Reply := (Reply Tree App Sigma).
Local Abbreviation Machine := (Machine Tree App Sigma).
Local Abbreviation Call := (Call Tree App Err).
Local Abbreviation Logged := (Logged Tree App Err).
Local Abbreviation Run := (Run Tree App Err Sigma).
Local Abbreviation M := (M Tree App Err Sigma).
Local Abbreviation RouterEvent := (RouterEvent Tree Err).
Local Abbreviation Input := (Input Tree App Err Sigma).

(** ** Actions and the reducer

    [action.payload.routerState] *)
Definition payload_routerState (p : Payload) : option RouterStateSnapshot :=
  match p with
  | NavigationPayload rs _ => rs
  | CancelPayload rs _ _ => rs
  | ErrorPayload rs _ _ => rs
  end.

(** [action.payload.event.id] *)
Definition payload_event_id (p : Payload) : nat :=
  match p with
  | NavigationPayload _ e => rr_id e
  | CancelPayload _ _ e => nc_id e
  | ErrorPayload _ _ e => ne_id e
  end.

(** [action.payload.storeState]; a navigation payload has no such field. *)
Definition payload_storeState (p : Payload) : option StoreState :=
  match p with
  | NavigationPayload _ _ => None
  | CancelPayload _ s _ => s
  | ErrorPayload _ s _ => s
  end.

(** [routerReducer] (lines 93-108): a [switch] on the type string. *)
Definition routerReducer (state : option RouterReducerState)
           (action : RouterAction) : option RouterReducerState :=
  if (type action =? ROUTER_NAVIGATION)
     || (type action =? ROUTER_ERROR)
     || (type action =? ROUTER_CANCEL)
  then Some {| rrs_state := payload_routerState (payload action);
               rrs_navigationId := payload_event_id (payload action) |}
  else state.

(** ** Methods as state transformers

    A method takes the machine and gives a [Run]; [bind] is the semicolon,
    [throw] an exception that leaves the method. *)
Definition ret {A} (a : A) : M A :=
  fun m => {| outcome := Returned a; final := m; log := [] |}.

Definition throw {A} (e : Exn) : M A :=
  fun m => {| outcome := Thrown e; final := m; log := [] |}.

Definition bind {A B} (c : M A) (k : A -> M B) : M B :=
  fun m =>
    let r := c m in
    match outcome r with
    | Returned a =>
        let r' := k a (final r) in
        {| outcome := outcome r'; final := final r'; log := log r ++ log r' |}
    | Thrown e => {| outcome := Thrown e; final := final r; log := log r |}
    end.

(** [try { c } finally { f }]: [f] runs however [c] ends, and the outcome
    of [c] stands unless [f] throws itself. *)
Definition try_finally {A} (c : M A) (f : M unit) : M A :=
  fun m =>
    let r := c m in
    let r' := f (final r) in
    {| outcome := match outcome r' with
                  | Returned _ => outcome r
                  | Thrown e => Thrown e
                  end;
       final := final r';
       log := log r ++ log r' |}.

Notation "x <- c ;; k" := (bind c (fun x => k))
  (at level 61, c at next level, right associativity).
Notation "c ;; k" := (bind c (fun _ => k))
  (at level 61, right associativity).

Definition read {A} (f : Machine -> A) : M A :=
  fun m => {| outcome := Returned (f m); final := m; log := [] |}.

Definition assign (f : Bridge -> Bridge) : M unit :=
  fun m => {| outcome := Returned tt;
              final := {| this := f (this m);
                          router_url := router_url m;
                          store := store m |};
              log := [] |}.

Definition invoke (c : Call) : M unit :=
  fun m => {| outcome := Returned tt; final := m;
              log := [ {| call := c; fields := this m |} ] |}.

(** ** The methods of the module

    Field assignments. *)
Definition set_routerState (v : option RouterStateSnapshot) (b : Bridge)
  : Bridge :=
  {| routerState := v;
     storeState := storeState b;
     lastRoutesRecognized := lastRoutesRecognized b;
     dispatchTriggeredByRouter := dispatchTriggeredByRouter b;
     navigationTriggeredByDispatch := navigationTriggeredByDispatch b |}.

Definition set_storeState (v : option StoreState) (b : Bridge) : Bridge :=
  {| routerState := routerState b;
     storeState := v;
     lastRoutesRecognized := lastRoutesRecognized b;
     dispatchTriggeredByRouter := dispatchTriggeredByRouter b;
     navigationTriggeredByDispatch := navigationTriggeredByDispatch b |}.

Definition set_lastRoutesRecognized (v : option RoutesRecognized)
           (b : Bridge) : Bridge :=
  {| routerState := routerState b;
     storeState := storeState b;
     lastRoutesRecognized := v;
     dispatchTriggeredByRouter := dispatchTriggeredByRouter b;
     navigationTriggeredByDispatch := navigationTriggeredByDispatch b |}.

Definition set_dispatchTriggeredByRouter (v : bool) (b : Bridge) : Bridge :=
  {| routerState := routerState b;
     storeState := storeState b;
     lastRoutesRecognized := lastRoutesRecognized b;
     dispatchTriggeredByRouter := v;
     navigationTriggeredByDispatch := navigationTriggeredByDispatch b |}.

Definition set_navigationTriggeredByDispatch (v : bool) (b : Bridge)
  : Bridge :=
  {| routerState := routerState b;
     storeState := storeState b;
     lastRoutesRecognized := lastRoutesRecognized b;
     dispatchTriggeredByRouter := dispatchTriggeredByRouter b;
     navigationTriggeredByDispatch := v |}.

(** [shouldDispatchRouterNavigation] (lines 193-196).  Reading a key of
    [this.storeState] while the field is [undefined] is a [TypeError]. *)
Definition shouldDispatchRouterNavigation : M bool :=
  b <- read this ;;
  match storeState b with
  | None => throw TypeError
  | Some s =>
      match st_routerReducer s with
      | None => ret true
      | Some _ => ret (negb (navigationTriggeredByDispatch b))
      end
  end.

(** [navigateIfNeeded] (lines 198-211). *)
Definition navigateIfNeeded : M unit :=
  b <- read this ;;
  match storeState b with
  | None => throw TypeError
  | Some s =>
      match st_routerReducer s with
      | None => ret tt
      | Some r =>
          match rrs_state r with
          | None => ret tt
          | Some st =>
              if dispatchTriggeredByRouter b then ret tt
              else
                u <- read router_url ;;
                if u =? snap_url st then ret tt
                else
                  assign (set_navigationTriggeredByDispatch true) ;;
                  invoke (NavigateByUrl (snap_url st))
          end
      end
  end.

(** The subscriber of line 187. *)
Definition listener (s : StoreState) : M unit :=
  assign (set_storeState (Some s)) ;;
  navigateIfNeeded.

(** The store hands a list of states to the subscriber; a throwing
    subscriber ends the delivery. *)
Fixpoint deliver (l : list StoreState) : M unit :=
  match l with
  | [] => ret tt
  | s :: l' => listener s ;; deliver l'
  end.

(** [this.store.dispatch(action)]: the call, then what the store does
    before it comes back. *)
Definition store_dispatch (a : RouterAction) : M unit :=
  invoke (Dispatch a) ;;
  sigma <- read store ;;
  let r := dispatch sigma a in
  (fun m => {| outcome := Returned tt;
               final := {| this := this m; router_url := router_url m;
                           store := reply_store r |};
               log := [] |}) ;;
  deliver (reply_emits r) ;;
  if reply_throws r then throw StoreThrew else ret tt.

(** [dispatchRouterAction] (lines 253-261). *)
Definition dispatchRouterAction (ty : string)
           (p : Payload) : M unit :=
  assign (set_dispatchTriggeredByRouter true) ;;
  try_finally
    (store_dispatch {| type := ty; payload := p |})
    (assign (set_dispatchTriggeredByRouter false) ;;
     assign (set_navigationTriggeredByDispatch false)).

(** [this.serializer.serialize(this.routerState)] (line 232): [None] when
    the call throws. *)
Definition serialize_field (o : option RouterStateSnapshot)
  : option (option RouterStateSnapshot) :=
  match o with
  | Some rs => Some (Some (serialize rs))
  | None => serialize_undefined
  end.

(** [dispatchRouterNavigation] (lines 225-235).  The fields of an
    [undefined] [lastRoutesRecognized] cannot be read; [this.routerState]
    is only passed on, to the payload and to the serializer. *)
Definition dispatchRouterNavigation : M unit :=
  b <- read this ;;
  match lastRoutesRecognized b with
  | None => throw TypeError
  | Some e =>
      match serialize_field (routerState b) with
      | None => throw TypeError
      | Some st =>
          dispatchRouterAction ROUTER_NAVIGATION
            (NavigationPayload (routerState b)
               {| rr_id := rr_id e;
                  rr_url := rr_url e;
                  rr_urlAfterRedirects := rr_urlAfterRedirects e;
                  rr_state := st |})
      end
  end.

(** [dispatchRouterCancel] (lines 237-243). *)
Definition dispatchRouterCancel (event : NavigationCancel) : M unit :=
  b <- read this ;;
  dispatchRouterAction ROUTER_CANCEL
    (CancelPayload (routerState b) (storeState b) event).

(** [dispatchRouterError] (lines 245-251). *)
Definition dispatchRouterError (event : NavigationError) : M unit :=
  b <- read this ;;
  dispatchRouterAction ROUTER_ERROR
    (ErrorPayload (routerState b) (storeState b) event).

(** The hook of lines 176-183; [of(true)] is the returned [true]. *)
Definition beforePreactivation (rs : RouterStateSnapshot) : M bool :=
  assign (set_routerState (Some (serialize rs))) ;;
  go <- shouldDispatchRouterNavigation ;;
  (if go then dispatchRouterNavigation else ret tt) ;;
  ret true.

(** The subscriber of lines 214-222. *)
Definition onRouterEvent (e : RouterEvent) : M unit :=
  match e with
  | IsRoutesRecognized r => assign (set_lastRoutesRecognized (Some r))
  | IsNavigationCancel c => dispatchRouterCancel c
  | IsNavigationError x => dispatchRouterError x
  | IsOther _ => ret tt
  end.

(** The constructor (lines 165-173).  Installing the hook and subscribing
    to [router.events] (a subject without replay) change nothing at once;
    subscribing to the store runs the listener on what [subscribe]
    lists. *)
Definition initial : Bridge :=
  {| routerState := None;
     storeState := None;
     lastRoutesRecognized := None;
     dispatchTriggeredByRouter := false;
     navigationTriggeredByDispatch := false |}.

Definition setUpStoreStateListener : M unit :=
  sigma <- read store ;;
  deliver (subscribe sigma).

Definition construct (sigma : Sigma) (u : string) : Run unit :=
  setUpStoreStateListener
    {| this := initial; router_url := u; store := sigma |}.

Definition handle (i : Input) : M unit :=
  match i with
  | Preactivation rs => beforePreactivation rs ;; ret tt
  | RouterEmits e => onRouterEvent e
  | StoreEmits sigma s =>
      (fun m => {| outcome := Returned tt;
                   final := {| this := this m; router_url := router_url m;
                               store := sigma |};
                   log := [] |}) ;;
      listener s
  | UrlBecomes u =>
      fun m => {| outcome := Returned tt;
                  final := {| this := this m; router_url := u;
                              store := store m |};
                  log := [] |}
  end.

(** A sequence of inputs, every one of them handled.  An exception that
    leaves a handler goes to the collaborator that called it; the module
    stays as the handler left it. *)
Fixpoint handle_all (inputs : list Input) (m : Machine)
  : Machine * list Logged :=
  match inputs with
  | [] => (m, [])
  | i :: rest =>
      let r := handle i m in
      let (m', l) := handle_all rest (final r) in
      (m', log r ++ l)
  end.

Definition is_router_event (i : Input) : bool :=
  match i with
  | RouterEmits _ => true
  | _ => false
  end.

(** Whether the subscriber of [router.events] (line 214) is still
    subscribed after the input [i] ended as [r]: a subscriber whose [next]
    throws is unsubscribed by rxjs before the exception goes on.  The
    listener of the store never throws, and the hook is no subscriber. *)
Definition stays_subscribed (i : Input) (r : Run unit) : bool :=
  match i with
  | RouterEmits _ =>
      match outcome r with
      | Returned _ => true
      | Thrown _ => false
      end
  | _ => true
  end.

(** A sequence of inputs as the module lives through it: [live] tells
    whether the subscriber of [router.events] is still subscribed; once it
    is not, the events of the router reach nobody. *)
Fixpoint run_from (live : bool) (inputs : list Input) (m : Machine)
  : Machine * list Logged :=
  match inputs with
  | [] => (m, [])
  | i :: rest =>
      if is_router_event i && negb live then run_from live rest m
      else
        let r := handle i m in
        let (m', l) :=
          run_from (live && stays_subscribed i r) rest (final r) in
        (m', log r ++ l)
  end.

(** A sequence of inputs after construction. *)
Definition run (inputs : list Input) (m : Machine) : Machine * list Logged :=
  run_from true inputs m.

(** The inputs of a sequence that reach a handler of the module. *)
Fixpoint delivered (live : bool) (inputs : list Input) (m : Machine)
  : list Input :=
  match inputs with
  | [] => []
  | i :: rest =>
      if is_router_event i && negb live then delivered live rest m
      else
        let r := handle i m in
        i :: delivered (live && stays_subscribed i r) rest (final r)
  end.

(** ** Reading a log *)

(** The actions handed to [store.dispatch], oldest first. *)
Fixpoint dispatched (l : list Logged) : list RouterAction :=
  match l with
  | [] => []
  | {| call := Dispatch a |} :: l' => a :: dispatched l'
  | {| call := NavigateByUrl _ |} :: l' => dispatched l'
  end.

(** The URLs handed to [router.navigateByUrl], oldest first. *)
Fixpoint navigations (l : list Logged) : list string :=
  match l with
  | [] => []
  | {| call := Dispatch _ |} :: l' => navigations l'
  | {| call := NavigateByUrl u |} :: l' => u :: navigations l'
  end.

(** [storeState['routerReducer'].state.url], when the slot and its
    [state] are there. *)
Definition slot_url (s : StoreState) : option string :=
  match st_routerReducer s with
  | Some r =>
      match rrs_state r with
      | Some st => Some (snap_url st)
      | None => None
      end
  | None => None
  end.

(** The last state a list of emissions leaves in [this.storeState]. *)
Definition observed (l : list StoreState) (o : option StoreState)
  : option StoreState :=
  fold_left (fun _ s => Some s) l o.

(** [action.payload.event.state] of a navigation payload. *)
Definition payload_event_state (p : Payload) : option RouterStateSnapshot :=
  match p with
  | NavigationPayload _ e => rr_state e
  | _ => None
  end.

Definition with_this (b : Bridge) (m : Machine) : Machine :=
  {| this := b; router_url := router_url m; store := store m |}.

(** The action the hook dispatches for the snapshot [rs] when [e] is the
    last recognized event. *)
Definition commit_action (rs : RouterStateSnapshot) (e : RoutesRecognized)
  : RouterAction :=
  {| type := ROUTER_NAVIGATION;
     payload :=
       NavigationPayload (Some (serialize rs))
         {| rr_id := rr_id e;
            rr_url := rr_url e;
            rr_urlAfterRedirects := rr_urlAfterRedirects e;
            rr_state := Some (serialize (serialize rs)) |} |}.

(** ** Closed forms

    [dispatchRouterAction] in closed form: one call to the store, made with
    the first guard set; the emissions of the store reach [storeState] and
    nothing else; both guards are clear at the end. *)
Definition dispatch_result (ty : string) (p : Payload) (m : Machine)
  : Run unit :=
  let a := {| type := ty; payload := p |} in
  let r := dispatch (store m) a in
  {| outcome := if reply_throws r then Thrown StoreThrew else Returned tt;
     final :=
       {| this :=
            {| routerState := routerState (this m);
               storeState := observed (reply_emits r) (storeState (this m));
               lastRoutesRecognized := lastRoutesRecognized (this m);
               dispatchTriggeredByRouter := false;
               navigationTriggeredByDispatch := false |};
          router_url := router_url m;
          store := reply_store r |};
     log := [ {| call := Dispatch a;
                 fields := set_dispatchTriggeredByRouter true (this m) |} ] |}.

(** The machine the hook leaves when it dispatches nothing. *)
Definition serialized_into (rs : RouterStateSnapshot) (m : Machine)
  : Machine :=
  with_this (set_routerState (Some (serialize rs)) (this m)) m.

(** The hook in closed form. *)
Definition hook_result (rs : RouterStateSnapshot) (m : Machine) : Run bool :=
  let m1 := serialized_into rs m in
  match storeState (this m) with
  | None => throw TypeError m1
  | Some s =>
      match st_routerReducer s, navigationTriggeredByDispatch (this m) with
      | Some _, true => ret true m1
      | _, _ =>
          match lastRoutesRecognized (this m) with
          | None => throw TypeError m1
          | Some e =>
              let d := dispatch_result ROUTER_NAVIGATION
                         (payload (commit_action rs e)) m1 in
              {| outcome := match outcome d with
                            | Returned _ => Returned true
                            | Thrown x => Thrown x
                            end;
                 final := final d;
                 log := log d |}
          end
      end
  end.

(** What an input leaves in [lastRoutesRecognized]: only a
    [RoutesRecognized] event changes it. *)
Definition recognizes (i : Input) (o : option RoutesRecognized)
  : option RoutesRecognized :=
  match i with
  | RouterEmits (IsRoutesRecognized r) => Some r
  | _ => o
  end.

(** Whether the hook reaches [dispatchRouterNavigation] from the fields
    [b]: the decision of [shouldDispatchRouterNavigation], [false] when it
    throws. *)
Definition hook_commits (b : Bridge) : bool :=
  match storeState b with
  | None => false
  | Some s =>
      match st_routerReducer s with
      | None => true
      | Some _ => negb (navigationTriggeredByDispatch b)
      end
  end.

(** Whether a run of the hook from [m] skips the commit exactly when
    [navigationTriggeredByDispatch] is set, the slot left aside. *)
Definition skips_exactly_when_guarded (rs : RouterStateSnapshot)
           (m : Machine) : bool :=
  Bool.eqb
    (match dispatched (log (beforePreactivation rs m)) with
     | [] => true
     | _ :: _ => false
     end)
    (navigationTriggeredByDispatch (this m)).

(** The actions a handler dispatches from the fields [b]. *)
Definition handle_actions (i : Input) (b : Bridge) : list RouterAction :=
  match i with
  | Preactivation rs =>
      match lastRoutesRecognized b with
      | Some e => if hook_commits b then [commit_action rs e] else []
      | None => []
      end
  | RouterEmits (IsNavigationCancel c) =>
      [ {| type := ROUTER_CANCEL;
           payload := CancelPayload (routerState b) (storeState b) c |} ]
  | RouterEmits (IsNavigationError x) =>
      [ {| type := ROUTER_ERROR;
           payload := ErrorPayload (routerState b) (storeState b) x |} ]
  | _ => []
  end.

(** The inputs that hand no store state to the module. *)
Definition silent (i : Input) : bool :=
  match i with
  | RouterEmits (IsRoutesRecognized _) => true
  | RouterEmits (IsOther _) => true
  | UrlBecomes _ => true
  | _ => false
  end.

(** ** Actions per navigation id *)

(** An action of type [ty] whose [payload.event.id] is [n]. *)
Definition about (ty : string) (n : nat) (a : RouterAction) : bool :=
  (type a =? ty) && (payload_event_id (payload a) =? n)%nat.

Definition count_of (ty : string) (n : nat) (l : list RouterAction) : nat :=
  length (filter (about ty n) l).



Definition is_cancel_of (n : nat) (i : Input) : bool :=
  match i with
  | RouterEmits (IsNavigationCancel c) => (nc_id c =? n)%nat
  | _ => false
  end.


(** How often the router reports the navigation [n] as canceled, as
    failed. *)
Definition cancel_events (n : nat) (inputs : list Input) : nat :=
  length (filter (is_cancel_of n) inputs).



(** ** Further readings of actions and inputs *)

(** The [case] labels of [routerReducer]. *)
Definition handled (a : RouterAction) : bool :=
  existsb (String.eqb (type a))
    [ROUTER_NAVIGATION; ROUTER_ERROR; ROUTER_CANCEL].

(** The slot [routerReducer] writes for an action it handles. *)
Definition slot_of (a : RouterAction) : RouterReducerState :=
  {| rrs_state := payload_routerState (payload a);
     rrs_navigationId := payload_event_id (payload a) |}.

(** The reducer over a sequence of actions, as the store applies it. *)
Definition reduce_all (l : list RouterAction)
           (state : option RouterReducerState) : option RouterReducerState :=
  fold_left routerReducer l state.

Definition is_store_emission (i : Input) : bool :=
  match i with
  | StoreEmits _ _ => true
  | _ => false
  end.

(** The inputs whose handler can reach [dispatchRouterAction]. *)
Definition may_dispatch (i : Input) : bool :=
  match i with
  | Preactivation _ => true
  | RouterEmits (IsNavigationCancel _) => true
  | RouterEmits (IsNavigationError _) => true
  | _ => false
  end.

(** The inputs that come from the router and are no terminal event. *)
Definition is_routing (i : Input) : bool :=
  match i with
  | Preactivation _ => true
  | RouterEmits (IsRoutesRecognized _) => true
  | RouterEmits (IsOther _) => true
  | UrlBecomes _ => true
  | _ => false
  end.

(** What a sequence of inputs leaves in [lastRoutesRecognized]. *)
Definition last_recognized (inputs : list Input)
           (o : option RoutesRecognized) : option RoutesRecognized :=
  fold_left (fun o i => recognizes i o) inputs o.

(** What a sequence of inputs leaves in [routerState]: the serialized
    snapshot of the last pre-activation. *)
Definition last_snapshot (inputs : list Input)
           (o : option RouterStateSnapshot) : option RouterStateSnapshot :=
  fold_left (fun o i => match i with
                        | Preactivation rs => Some (serialize rs)
                        | _ => o
                        end) inputs o.

(** The request the listener makes for the state [s] while the router is at
    [u0] and no dispatch of the module is under way. *)
Definition wanted (u0 : string) (s : StoreState) : list string :=
  match slot_url s with
  | Some u => if u0 =? u then [] else [u]
  | None => []
  end.

(** The requests of a sequence of inputs, the router at [u0] when it
    starts: those of its store emissions, each against the URL the router
    has by then. *)
Fixpoint requests (u0 : string) (inputs : list Input) : list string :=
  match inputs with
  | [] => []
  | StoreEmits _ s :: rest => wanted u0 s ++ requests u0 rest
  | UrlBecomes u :: rest => requests u rest
  | _ :: rest => requests u0 rest
  end.

End Semantics.

(** * Instances *)

(** Modelled from the spec: [DefaultRouterStateSerializer] lives in
    [./serializer], which is not among the sources at hand; the spec
    describes it as the identity projection, the snapshot handed back
    unmodified, [undefined] too. *)
#[export] Instance DefaultRouterStateSerializer (Tree : Type)
  : RouterStateSerializer Tree :=
  {| serialize := fun rs => rs; serialize_undefined := Some None |}.

(** A serializer that is not idempotent: it marks the URL it has seen, and
    throws on [undefined], whose [url] it cannot read. *)
Definition MarkingSerializer (Tree : Type) : RouterStateSerializer Tree :=
  {| serialize := fun rs =>
       {| snap_url := "#" ++ snap_url rs; snap_root := snap_root rs |};
     serialize_undefined := None |}.

(** Modelled from the spec: the store ([@ngrx/store]) is not among the
    sources at hand; the spec has it own one state, notify its subscribers
    on a dispatch and update the reserved slot on the three actions of the
    module.  This is the store [StoreModule.forRoot({ routerReducer })]
    builds: [routerReducer] owns the slot, a new subscriber gets the
    current state at once, and every dispatch hands the reduced state to
    the subscribers before it returns. *)
#[export] Instance ReducerStore (Tree App Err : Type)
  : StoreLike Tree App Err (StoreState Tree App) :=
  {| subscribe := fun sigma => [sigma];
     dispatch := fun sigma a =>
       let s := {| st_routerReducer := routerReducer (st_routerReducer sigma) a;
                   st_app := st_app sigma |} in
       {| reply_store := s; reply_emits := [s]; reply_throws := false |} |}.

(** An emission of the reducer store made by the host application: the
    state handed to the listener is the state the store has moved to. *)
Definition coherent {Tree App Err : Type}
           (i : Input Tree App Err (StoreState Tree App)) : Prop :=
  match i with
  | StoreEmits sigma s => sigma = s
  | _ => True
  end.

(** A store that hands nothing to a new subscriber and whose [dispatch]
    throws when its state says so. *)
Definition LazyStore (Tree App Err : Type) : StoreLike Tree App Err bool :=
  {| subscribe := fun _ => [];
     dispatch := fun sigma _ =>
       {| reply_store := sigma; reply_emits := []; reply_throws := sigma |} |}.

Module Sample.

Definition Tree : Type := list string.
Definition App : Type := nat.
Definition Err : Type := string.

Definition at_url (u : string) (path : list string)
  : RouterStateSnapshot Tree :=
  {| snap_url := u; snap_root := path |}.

Definition slot_at (u : string) (path : list string) (n : nat)
  : StoreState Tree App :=
  {| st_routerReducer :=
       Some {| rrs_state := Some (at_url u path); rrs_navigationId := n |};
     st_app := 0 |}.

(** A store state without the slot. *)
Definition no_slot : StoreState Tree App :=
  {| st_routerReducer := None; st_app := 0 |}.

Definition recognized (n : nat) (u : string) (path : list string)
  : RoutesRecognized Tree :=
  {| rr_id := n; rr_url := u; rr_urlAfterRedirects := u;
     rr_state := Some (at_url u path) |}.

Definition canceled (n : nat) (u : string) : NavigationCancel :=
  {| nc_id := n; nc_url := u; nc_reason := "guard" |}.

Definition failed (n : nat) (u : string) : NavigationError Err :=
  {| ne_id := n; ne_url := u; ne_error := "resolver" |}.

(** The module over a reducer store that holds [/a], the router at [/a]. *)
Definition settled : Machine Tree App (StoreState Tree App) :=
  final (construct (Err := Err) (slot_at "/a" ["a"] 1) "/a").

(** Scenario C: navigation 2 to [/c] is recognized, reaches the hook and
    is canceled by a guard. *)
Definition scenario_C
  : list (Input Tree App Err (StoreState Tree App)) :=
  [ RouterEmits (IsRoutesRecognized (recognized 2 "/c" ["c"]));
    Preactivation (at_url "/c" ["c"]);
    RouterEmits (IsNavigationCancel (canceled 2 "/c")) ].

(** The store holds [/b] while the router is at [/a]: the constructor
    navigates.  The host then replaces the store state by one without the
    slot, and the router recognizes the navigation to [/b]. *)
Definition slot_dropped : Machine Tree App (StoreState Tree App) :=
  fst (run (Err := Err)
         [ StoreEmits no_slot no_slot;
           RouterEmits (IsRoutesRecognized (recognized 1 "/b" ["b"])) ]
         (final (construct (Err := Err) (slot_at "/b" ["b"] 0) "/a"))).

(** The same start, the slot kept: the navigation to [/b] that the
    constructor asked for has been recognized. *)
Definition awaiting : Machine Tree App (StoreState Tree App) :=
  fst (run (Err := Err)
         [ RouterEmits (IsRoutesRecognized (recognized 1 "/b" ["b"])) ]
         (final (construct (Err := Err) (slot_at "/b" ["b"] 0) "/a"))).

(** The module over a store whose [dispatch] throws: a store state without
    the slot observed, the navigation 2 recognized. *)
Definition failing : Machine Tree App bool :=
  {| this := {| routerState := None;
                storeState := Some no_slot;
                lastRoutesRecognized := Some (recognized 2 "/c" ["c"]);
                dispatchTriggeredByRouter := false;
                navigationTriggeredByDispatch := false |};
     router_url := "/a";
     store := true |}.

(** Over that store the router cancels navigation 2 and then navigation
    3; or cancels navigation 2 and then recognizes navigation 3. *)
Definition two_cancels : list (Input Tree App Err bool) :=
  [ RouterEmits (IsNavigationCancel (canceled 2 "/c"));
    RouterEmits (IsNavigationCancel (canceled 3 "/d")) ].

Definition canceled_then_recognized : list (Input Tree App Err bool) :=
  [ RouterEmits (IsNavigationCancel (canceled 2 "/c"));
    RouterEmits (IsRoutesRecognized (recognized 3 "/d" ["d"])) ].

(** Three actions: the cancel of scenario C, a commit for [/b], and an
    action of the host application. *)
Definition cancel_of_c : RouterAction Tree App Err :=
  {| type := ROUTER_CANCEL;
     payload := CancelPayload (Some (at_url "/c" ["c"]))
                  (Some (slot_at "/c" ["c"] 2)) (canceled 2 "/c") |}.

Definition commit_of_b : RouterAction Tree App Err :=
  commit_action (at_url "/b" ["b"]) (recognized 1 "/b" ["b"]).

Definition commit_of_c : RouterAction Tree App Err :=
  commit_action (at_url "/c" ["c"]) (recognized 2 "/c" ["c"]).

(** The first event of scenario C. *)
Definition recognizing_c : list (Input Tree App Err (StoreState Tree App)) :=
  [ RouterEmits (IsRoutesRecognized (recognized 2 "/c" ["c"])) ].

(** The module before any pre-activation, a navigation recognized. *)
Definition unvisited : Machine Tree App (StoreState Tree App) :=
  fst (run (Err := Err) recognizing_c settled).

Definition host_action : RouterAction Tree App Err :=
  {| type := "HOST";
     payload := CancelPayload None None (canceled 9 "/z") |}.

(** The module in the middle of a dispatch of its own. *)
Definition dispatching : Machine Tree App (StoreState Tree App) :=
  with_this (set_dispatchTriggeredByRouter true (this settled)) settled.

End Sample.

(** * Properties *)

Section Properties.

Context {Tree App Err Sigma : Type}.
Context {serializer : RouterStateSerializer Tree}.
Context {the_store : StoreLike Tree App Err Sigma}.

Local Abbreviation RouterStateSnapshot := (RouterStateSnapshot Tree).
Local Abbreviation RoutesRecognized := (RoutesRecognized Tree).
Local Abbreviation NavigationError := (NavigationError Err).
Local Abbreviation RouterReducerState := (RouterReducerState Tree).
Local Abbreviation StoreState := (StoreState Tree App).
Local Abbreviation Payload := (Payload Tree App Err).
Local Abbreviation RouterAction := (RouterAction Tree App Err).
Local Abbreviation Bridge := (Bridge Tree App).
Local Abbreviation Reply := (Reply Tree App Sigma).
Local Abbreviation Machine := (Machine Tree App Sigma).
Local Abbreviation Call := (Call Tree App Err).
Local Abbreviation Logged := (Logged Tree App Err).
Local Abbreviation Run := (Run Tree App Err Sigma).
Local Abbreviation M := (M Tree App Err Sigma).
Local Abbreviation RouterEvent := (RouterEvent Tree Err).
Local Abbreviation Input := (Input Tree App Err Sigma).

(** The methods at the types of this section. *)
Local Abbreviation ret := (ret (Err := Err)).
Local Abbreviation throw := (throw (Err := Err)).
Local Abbreviation read := (read (Err := Err)).
Local Abbreviation assign := (assign (Err := Err)).
Local Abbreviation shouldDispatchRouterNavigation :=
  (shouldDispatchRouterNavigation (Err := Err)).
Local Abbreviation navigateIfNeeded := (navigateIfNeeded (Err := Err)).
Local Abbreviation listener := (listener (Err := Err)).
Local Abbreviation deliver := (deliver (Err := Err)).
Local Abbreviation commit_action := (commit_action (App := App) (Err := Err)).

Notation "x <- c ;; k" := (bind c (fun x => k))
  (at level 61, c at next level, right associativity).
Notation "c ;; k" := (bind c (fun _ => k))
  (at level 61, right associativity).

(** ** How the methods run *)

Lemma dispatched_app (l1 l2 : list Logged) :
  dispatched (l1 ++ l2) = dispatched l1 ++ dispatched l2.
Proof.
  induction l1 as [|[[a|u] b] l1 IH]; simpl; [reflexivity| |exact IH].
  now rewrite IH.
Qed.

Lemma navigations_app (l1 l2 : list Logged) :
  navigations (l1 ++ l2) = navigations l1 ++ navigations l2.
Proof.
  induction l1 as [|[[a|u] b] l1 IH]; simpl; [reflexivity|exact IH|].
  now rewrite IH.
Qed.

Lemma with_this_this (m : Machine) : with_this (this m) m = m.
Proof. now destruct m. Qed.

Lemma set_storeState_same (b : Bridge) : set_storeState (storeState b) b = b.
Proof. now destruct b. Qed.

(** The listener never throws: it has just assigned the field it reads. *)
Lemma listener_eq (s : StoreState) (m : Machine) :
  listener s m =
  let b := set_storeState (Some s) (this m) in
  match slot_url s with
  | Some u =>
      if dispatchTriggeredByRouter (this m) || (router_url m =? u)
      then {| outcome := Returned tt; final := with_this b m; log := [] |}
      else {| outcome := Returned tt;
              final := with_this (set_navigationTriggeredByDispatch true b) m;
              log :=
                [ {| call := NavigateByUrl u;
                     fields := set_navigationTriggeredByDispatch true b |} ] |}
  | None => {| outcome := Returned tt; final := with_this b m; log := [] |}
  end.
Proof.
  unfold listener, navigateIfNeeded, slot_url, bind, assign, read, ret, invoke,
    with_this; simpl.
  destruct (st_routerReducer s) as [r|]; simpl; [|reflexivity].
  destruct (rrs_state r) as [st|]; simpl; [|reflexivity].
  destruct (dispatchTriggeredByRouter (this m)); simpl; [reflexivity|].
  destruct (router_url m =? snap_url st); reflexivity.
Qed.

Lemma listener_guarded (s : StoreState) (m : Machine) :
  dispatchTriggeredByRouter (this m) = true ->
  listener s m =
  {| outcome := Returned tt;
     final := with_this (set_storeState (Some s) (this m)) m;
     log := [] |}.
Proof.
  intros G. rewrite listener_eq. simpl. rewrite G. simpl.
  now destruct (slot_url s).
Qed.

Lemma deliver_guarded (l : list StoreState) : forall m : Machine,
  dispatchTriggeredByRouter (this m) = true ->
  deliver l m =
  {| outcome := Returned tt;
     final := with_this (set_storeState (observed l (storeState (this m)))
                           (this m)) m;
     log := [] |}.
Proof.
  induction l as [|s l IH]; intros m G.
  - simpl. unfold ret, observed. simpl.
    now rewrite set_storeState_same, with_this_this.
  - simpl. unfold bind. rewrite listener_guarded by exact G. simpl.
    rewrite IH by exact G. reflexivity.
Qed.

Lemma dispatchRouterAction_eq ty (p : Payload) (m : Machine) :
  dispatchRouterAction ty p m = dispatch_result ty p m.
Proof.
  unfold dispatchRouterAction, dispatch_result, store_dispatch, try_finally,
    bind, assign, read, invoke.
  cbn [outcome final log this store router_url].
  rewrite deliver_guarded by reflexivity.
  cbn [outcome final log].
  destruct (reply_throws _); reflexivity.
Qed.

(** ** Stepping through a method *)

Lemma run_eta A (r : Run A) :
  {| outcome := outcome r; final := final r; log := log r |} = r.
Proof. now destruct r. Qed.

Lemma bind_assign B f (k : unit -> M B) m :
  bind (assign f) k m = k tt (with_this (f (this m)) m).
Proof. unfold bind, assign, with_this; simpl. apply run_eta. Qed.

Lemma bind_read A B (f : Machine -> A) (k : A -> M B) m :
  bind (read f) k m = k (f m) m.
Proof. unfold bind, read; simpl. apply run_eta. Qed.

Lemma bind_ret A B (a : A) (k : A -> M B) m : bind (ret a) k m = k a m.
Proof. unfold bind, ret; simpl. apply run_eta. Qed.

Lemma bind_throw A B e (k : A -> M B) m : bind (throw e) k m = throw e m.
Proof. reflexivity. Qed.

Lemma shouldDispatchRouterNavigation_eq (m : Machine) :
  shouldDispatchRouterNavigation m =
  match storeState (this m) with
  | None => throw TypeError m
  | Some s =>
      ret (match st_routerReducer s with
           | None => true
           | Some _ => negb (navigationTriggeredByDispatch (this m))
           end) m
  end.
Proof.
  unfold shouldDispatchRouterNavigation. rewrite bind_read.
  destruct (storeState (this m)) as [s|]; [|reflexivity].
  now destruct (st_routerReducer s).
Qed.

Lemma serialized_into_storeState (rs : RouterStateSnapshot) (m : Machine) :
  storeState (this (serialized_into rs m)) = storeState (this m).
Proof. reflexivity. Qed.

Lemma serialized_into_guard (rs : RouterStateSnapshot) (m : Machine) :
  navigationTriggeredByDispatch (this (serialized_into rs m)) =
  navigationTriggeredByDispatch (this m).
Proof. reflexivity. Qed.

Lemma dispatchRouterNavigation_eq (rs : RouterStateSnapshot) (m : Machine) :
  (dispatchRouterNavigation ;; ret true) (serialized_into rs m) =
  match lastRoutesRecognized (this m) with
  | None => throw TypeError (serialized_into rs m)
  | Some e =>
      let d := dispatch_result ROUTER_NAVIGATION
                 (payload (commit_action rs e)) (serialized_into rs m) in
      {| outcome := match outcome d with
                    | Returned _ => Returned true
                    | Thrown x => Thrown x
                    end;
         final := final d;
         log := log d |}
  end.
Proof.
  unfold dispatchRouterNavigation, bind at 1. rewrite bind_read.
  change (lastRoutesRecognized (this (serialized_into rs m)))
    with (lastRoutesRecognized (this m)).
  change (routerState (this (serialized_into rs m)))
    with (Some (serialize rs)).
  destruct (lastRoutesRecognized (this m)) as [e|]; [|reflexivity].
  cbn [serialize_field]. rewrite dispatchRouterAction_eq.
  unfold dispatch_result, commit_action.
  cbn [outcome final log payload].
  destruct (reply_throws _); cbn [outcome final log ret app];
    reflexivity.
Qed.

Lemma beforePreactivation_eq (rs : RouterStateSnapshot) (m : Machine) :
  beforePreactivation rs m = hook_result rs m.
Proof.
  unfold beforePreactivation, hook_result. rewrite bind_assign.
  fold (serialized_into rs m).
  unfold bind at 1. rewrite shouldDispatchRouterNavigation_eq.
  rewrite serialized_into_storeState, serialized_into_guard.
  destruct (storeState (this m)) as [s|]; [|reflexivity].
  cbn [ret outcome final log app].
  destruct (st_routerReducer s) as [r|].
  - destruct (navigationTriggeredByDispatch (this m)); cbn [negb].
    + rewrite bind_ret. now destruct (ret true (serialized_into rs m)).
    + rewrite dispatchRouterNavigation_eq.
      destruct (lastRoutesRecognized (this m)); reflexivity.
  - rewrite dispatchRouterNavigation_eq.
    destruct (lastRoutesRecognized (this m)); reflexivity.
Qed.

(** The two rollback dispatches in closed form. *)
Lemma dispatchRouterCancel_eq event (m : Machine) :
  dispatchRouterCancel event m =
  dispatch_result ROUTER_CANCEL
    (CancelPayload (routerState (this m)) (storeState (this m)) event) m.
Proof.
  unfold dispatchRouterCancel. rewrite bind_read.
  apply dispatchRouterAction_eq.
Qed.

Lemma dispatchRouterError_eq event (m : Machine) :
  dispatchRouterError event m =
  dispatch_result ROUTER_ERROR
    (ErrorPayload (routerState (this m)) (storeState (this m)) event) m.
Proof.
  unfold dispatchRouterError. rewrite bind_read.
  apply dispatchRouterAction_eq.
Qed.

Lemma listener_lastRoutesRecognized (s : StoreState) (m : Machine) :
  lastRoutesRecognized (this (final (listener s m))) =
  lastRoutesRecognized (this m).
Proof.
  rewrite listener_eq. cbn zeta.
  destruct (slot_url s) as [u|]; [|reflexivity].
  now destruct (dispatchTriggeredByRouter (this m) || (router_url m =? u)).
Qed.

Lemma hook_lastRoutesRecognized (rs : RouterStateSnapshot) (m : Machine) :
  lastRoutesRecognized (this (final (beforePreactivation rs m))) =
  lastRoutesRecognized (this m).
Proof.
  rewrite beforePreactivation_eq. unfold hook_result.
  destruct (storeState (this m)) as [s|]; [|reflexivity].
  destruct (st_routerReducer s), (navigationTriggeredByDispatch (this m));
    try reflexivity;
    destruct (lastRoutesRecognized (this m)) eqn:L;
    try reflexivity; exact L.
Qed.

Lemma handle_lastRoutesRecognized (i : Input) (m : Machine) :
  lastRoutesRecognized (this (final (handle i m))) =
  recognizes i (lastRoutesRecognized (this m)).
Proof.
  destruct i as [rs|[r|c|x|n]|sigma s|u]; cbn [handle recognizes onRouterEvent].
  - unfold bind. generalize (hook_lastRoutesRecognized rs m).
    now destruct (beforePreactivation rs m) as [[a|e] f l].
  - reflexivity.
  - now rewrite dispatchRouterCancel_eq.
  - now rewrite dispatchRouterError_eq.
  - reflexivity.
  - unfold bind. cbn [outcome final log].
    now rewrite listener_lastRoutesRecognized.
  - reflexivity.
Qed.

(** Once a store state has been seen, [storeState] stays defined. *)
Lemma observed_defined (l : list StoreState) o :
  o <> None -> observed l o <> None.
Proof.
  revert o. induction l as [|s l IH]; intros o D; [exact D|].
  apply IH. discriminate.
Qed.

Lemma observed_nonempty (l : list StoreState) o :
  l <> [] -> observed l o <> None.
Proof.
  intros N. destruct l as [|s l]; [now elim N|].
  change (observed l (Some s) <> None).
  apply observed_defined. discriminate.
Qed.

Lemma listener_storeState (s : StoreState) (m : Machine) :
  storeState (this (final (listener s m))) = Some s.
Proof.
  rewrite listener_eq. cbn zeta.
  destruct (slot_url s) as [u|]; [|reflexivity].
  now destruct (dispatchTriggeredByRouter (this m) || (router_url m =? u)).
Qed.

Lemma listener_returns (s : StoreState) (m : Machine) :
  outcome (listener s m) = Returned tt.
Proof.
  rewrite listener_eq. cbn zeta.
  destruct (slot_url s) as [u|]; [|reflexivity].
  now destruct (dispatchTriggeredByRouter (this m) || (router_url m =? u)).
Qed.

(** ** The dispatch wrapper *)

(** C5.  After [dispatchRouterAction], however the call to the store ends
    (it returns, or a reducer or subscriber throws and the exception
    leaves the wrapper), both guards are [false]. *)
Theorem guards_clear_after_dispatch ty (p : Payload) (m : Machine) :
  let r := dispatchRouterAction ty p m in
  outcome r =
    (if reply_throws (dispatch (store m) {| type := ty; payload := p |})
     then Thrown StoreThrew else Returned tt) /\
  dispatchTriggeredByRouter (this (final r)) = false /\
  navigationTriggeredByDispatch (this (final r)) = false.
Proof.
  cbn zeta. rewrite dispatchRouterAction_eq. unfold dispatch_result.
  cbn [outcome final this dispatchTriggeredByRouter
       navigationTriggeredByDispatch].
  repeat split.
Qed.

(** The store is called exactly once, with the first guard set. *)
Lemma dispatch_calls_store_once ty (p : Payload) (m : Machine) :
  log (dispatchRouterAction ty p m) =
  [ {| call := Dispatch {| type := ty; payload := p |};
       fields := set_dispatchTriggeredByRouter true (this m) |} ].
Proof. now rewrite dispatchRouterAction_eq. Qed.

(** ** The store listener *)

(** C6.  A state that reaches the listener while
    [dispatchTriggeredByRouter] is set makes it call nothing, and so no
    state the store emits during a dispatch of the module leads to a
    [navigateByUrl]. *)
Theorem own_dispatch_never_navigates :
  (forall (s : StoreState) (m : Machine),
      dispatchTriggeredByRouter (this m) = true ->
      log (listener s m) = [] /\
      navigationTriggeredByDispatch (this (final (listener s m))) =
      navigationTriggeredByDispatch (this m)) /\
  (forall ty p (m : Machine),
      navigations (log (dispatchRouterAction ty p m)) = []).
Proof.
  split.
  - intros s m G. now rewrite listener_guarded.
  - intros ty p m. now rewrite dispatch_calls_store_once.
Qed.

(** C8.  The listener calls [navigateByUrl] exactly when the slot and its
    [state] are present, [dispatchTriggeredByRouter] is clear and
    [router.url] is not the URL of the slot; it calls it once, with that
    URL, and [navigationTriggeredByDispatch] is already set when the call
    is made. *)
Theorem listener_navigates_iff (s : StoreState) (m : Machine) :
  let r := listener s m in
  (forall u,
      In u (navigations (log r)) <->
      (exists slot st,
          st_routerReducer s = Some slot /\ rrs_state slot = Some st /\
          snap_url st = u) /\
      dispatchTriggeredByRouter (this m) = false /\
      router_url m <> u) /\
  length (log r) <= 1 /\
  (forall e,
      In e (log r) ->
      (exists u, call e = NavigateByUrl u) /\
      navigationTriggeredByDispatch (fields e) = true /\
      storeState (fields e) = Some s).
Proof.
  cbn zeta. rewrite listener_eq. cbn zeta. unfold slot_url.
  assert (Quiet : forall (f : Machine),
    (forall u, ~ ((exists slot st,
                      st_routerReducer s = Some slot /\
                      rrs_state slot = Some st /\ snap_url st = u) /\
                  dispatchTriggeredByRouter (this m) = false /\
                  router_url m <> u)) ->
    let r : Run unit :=
    {| outcome := Returned tt; final := f; log := [] |} in
    (forall u,
        In u (navigations (log r)) <->
        (exists slot st,
            st_routerReducer s = Some slot /\ rrs_state slot = Some st /\
            snap_url st = u) /\
        dispatchTriggeredByRouter (this m) = false /\
        router_url m <> u) /\
    length (log r) <= 1 /\
    (forall e,
        In e (log r) ->
        (exists u, call e = NavigateByUrl u) /\
        navigationTriggeredByDispatch (fields e) = true /\
        storeState (fields e) = Some s)).
  { intros f N. cbn. split; [|split; [lia|intros e []]].
    intros u. split; [intros []|]. intros H. exact (N u H). }
  destruct (st_routerReducer s) as [slot|].
  2: { apply Quiet. intros u [(sl & st & A & _) _]. discriminate. }
  destruct (rrs_state slot) as [st|] eqn:St.
  2: { apply Quiet. intros u [(sl & st & A & B & _) _]. congruence. }
  destruct (dispatchTriggeredByRouter (this m)) eqn:G; cbn [orb].
  { apply Quiet. intros u (_ & A & _). discriminate. }
  destruct (router_url m =? snap_url st) eqn:U.
  { apply String.eqb_eq in U.
    apply Quiet. intros u [(sl & st' & A & B & C) (_ & N)]. congruence. }
  apply String.eqb_neq in U. clear Quiet.
  cbn [log navigations length In call fields].
  split; [|split; [lia|]].
  - intros u. split.
    + intros [<-|[]]. split; [|split; [reflexivity|exact U]].
      exists slot, st. now rewrite St.
    + intros [(sl & st' & A & B & C) _]. left. congruence.
  - intros e [<-|[]]. cbn [call fields]. split; [now eexists|].
    split; reflexivity.
Qed.

Lemma hook_dispatched (rs : RouterStateSnapshot) (m : Machine) :
  dispatched (log (beforePreactivation rs m)) =
  match lastRoutesRecognized (this m) with
  | Some e => if hook_commits (this m) then [commit_action rs e] else []
  | None => []
  end.
Proof.
  rewrite beforePreactivation_eq. unfold hook_result, hook_commits.
  destruct (storeState (this m)) as [s|];
    [|now destruct (lastRoutesRecognized (this m))].
  destruct (st_routerReducer s) as [slot|].
  - destruct (navigationTriggeredByDispatch (this m));
      now destruct (lastRoutesRecognized (this m)).
  - now destruct (lastRoutesRecognized (this m)).
Qed.

Lemma hook_navigations (rs : RouterStateSnapshot) (m : Machine) :
  navigations (log (beforePreactivation rs m)) = [].
Proof.
  rewrite beforePreactivation_eq. unfold hook_result.
  destruct (storeState (this m)) as [s|]; [|reflexivity].
  destruct (st_routerReducer s) as [slot|].
  - destruct (navigationTriggeredByDispatch (this m));
      now destruct (lastRoutesRecognized (this m)).
  - now destruct (lastRoutesRecognized (this m)).
Qed.

(** C1, as the code has it.  With a store state observed and a navigation
    recognized, the hook dispatches nothing exactly when the slot
    ['routerReducer'] is present in the observed state and
    [navigationTriggeredByDispatch] is set; otherwise it dispatches the one
    [ROUTER_NAVIGATION] action of the recognized navigation. *)
Theorem hook_skips_iff (rs : RouterStateSnapshot) (m : Machine)
        (s : StoreState) (e : RoutesRecognized) :
  storeState (this m) = Some s ->
  lastRoutesRecognized (this m) = Some e ->
  let r := beforePreactivation rs m in
  (dispatched (log r) = [] <->
   st_routerReducer s <> None /\
   navigationTriggeredByDispatch (this m) = true) /\
  (dispatched (log r) <> [] ->
   dispatched (log r) = [commit_action rs e] /\
   type (commit_action rs e) = "ROUTER_NAVIGATION").
Proof.
  intros U L. cbn zeta. rewrite hook_dispatched, L.
  unfold hook_commits. rewrite U.
  destruct (st_routerReducer s) as [slot|].
  - destruct (navigationTriggeredByDispatch (this m)); cbn [negb].
    + split; [|intros N; now elim N]. split; [|reflexivity].
      intros _. split; [discriminate|reflexivity].
    + split; [|intros _; split; reflexivity].
      split; [discriminate|]. intros [_ A]. discriminate.
  - split; [|intros _; split; reflexivity].
    split; [discriminate|]. intros [A _]. now elim A.
Qed.


Lemma listener_dispatched (s : StoreState) (m : Machine) :
  dispatched (log (listener s m)) = [].
Proof.
  rewrite listener_eq. cbn zeta.
  destruct (slot_url s) as [u|]; [|reflexivity].
  now destruct (dispatchTriggeredByRouter (this m) || (router_url m =? u)).
Qed.

Lemma handle_dispatched (i : Input) (m : Machine) :
  dispatched (log (handle i m)) = handle_actions i (this m).
Proof.
  destruct i as [rs|[r|c|x|n]|sigma s|u];
    cbn [handle handle_actions onRouterEvent].
  - rewrite <- hook_dispatched. unfold bind.
    destruct (beforePreactivation rs m) as [[a|e] f l]; cbn [outcome log ret];
      now rewrite ?app_nil_r.
  - reflexivity.
  - now rewrite dispatchRouterCancel_eq.
  - now rewrite dispatchRouterError_eq.
  - reflexivity.
  - unfold bind. cbn [outcome final log app].
    apply listener_dispatched.
  - reflexivity.
Qed.

Lemma handle_all_cons (i : Input) (inputs : list Input) (m : Machine) :
  handle_all (i :: inputs) m =
  (fst (handle_all inputs (final (handle i m))),
   log (handle i m) ++ snd (handle_all inputs (final (handle i m)))).
Proof.
  cbn [handle_all]. now destruct (handle_all inputs (final (handle i m))).
Qed.

(** ** The inputs that reach the module *)

(** A run is the handling of the inputs that are delivered. *)
Lemma run_from_delivered (inputs : list Input) :
  forall (live : bool) (m : Machine),
  run_from live inputs m = handle_all (delivered live inputs m) m.
Proof.
  induction inputs as [|i inputs IH]; intros live m; [reflexivity|].
  cbn [run_from delivered].
  destruct (is_router_event i && negb live); [apply IH|].
  cbn zeta. cbn [handle_all]. now rewrite IH.
Qed.

Lemma delivered_incl (live : bool) (inputs : list Input) (m : Machine) :
  incl (delivered live inputs m) inputs.
Proof.
  revert live m. induction inputs as [|i inputs IH]; intros live m;
    [apply incl_refl|].
  cbn [delivered].
  destruct (is_router_event i && negb live).
  - apply incl_tl, IH.
  - cbn zeta. apply incl_cons; [now left|]. apply incl_tl, IH.
Qed.

Lemma delivered_forallb (p : Input -> bool) (live : bool)
      (inputs : list Input) (m : Machine) :
  forallb p inputs = true -> forallb p (delivered live inputs m) = true.
Proof.
  rewrite !forallb_forall. intros Q i I. apply Q.
  exact (delivered_incl live inputs m i I).
Qed.

Lemma delivered_filter_length (p : Input -> bool) (live : bool)
      (inputs : list Input) (m : Machine) :
  length (filter p (delivered live inputs m)) <= length (filter p inputs).
Proof.
  revert live m. induction inputs as [|i inputs IH]; intros live m;
    [cbn; lia|].
  cbn [delivered].
  destruct (is_router_event i && negb live).
  - specialize (IH live m). cbn [filter]. destruct (p i); cbn [length]; lia.
  - cbn zeta. cbn [filter].
    specialize (IH (live && stays_subscribed i (handle i m))
                   (final (handle i m))).
    destruct (p i); cbn [length]; lia.
Qed.

(** The requests of a run do not depend on the router events it hears. *)
Lemma delivered_requests (inputs : list Input) :
  forall (live : bool) (m : Machine) (u : string),
  requests u (delivered live inputs m) = requests u inputs.
Proof.
  induction inputs as [|i inputs IH]; intros live m u; [reflexivity|].
  cbn [delivered].
  destruct (is_router_event i && negb live) eqn:D.
  - destruct i as [rs|e|sigma s|v]; try discriminate.
    cbn [requests]. apply IH.
  - cbn zeta. destruct i as [rs|e|sigma s|v]; cbn [requests];
      now rewrite IH.
Qed.

(** Nor does the snapshot the hook has stored. *)
Lemma delivered_last_snapshot (inputs : list Input) :
  forall (live : bool) (m : Machine) (o : option RouterStateSnapshot),
  last_snapshot (delivered live inputs m) o = last_snapshot inputs o.
Proof.
  induction inputs as [|i inputs IH]; intros live m o; [reflexivity|].
  cbn [delivered].
  destruct (is_router_event i && negb live) eqn:D.
  - destruct i as [rs|e|sigma s|v]; try discriminate.
    unfold last_snapshot. cbn [fold_left]. apply IH.
  - cbn zeta. unfold last_snapshot. cbn [fold_left]. apply IH.
Qed.

(** Without router events among the inputs every input is handled. *)
Lemma run_without_router_events (inputs : list Input) :
  forall (live : bool) (m : Machine),
  forallb (fun i => negb (is_router_event i)) inputs = true ->
  run_from live inputs m = handle_all inputs m.
Proof.
  induction inputs as [|i inputs IH]; intros live m Q; [reflexivity|].
  cbn [forallb] in Q. apply andb_prop in Q. destruct Q as [Qi Q].
  cbn [run_from handle_all].
  apply negb_true_iff in Qi. rewrite Qi. cbn [andb].
  cbn zeta. now rewrite IH.
Qed.

(** A recognized navigation that reaches the hook and gets a terminal
    event: the first event cannot throw, so all three inputs are
    handled. *)
Lemma run_of_a_lifecycle (m : Machine) (r : RoutesRecognized)
      (rs : RouterStateSnapshot) (e : RouterEvent) :
  run [RouterEmits (IsRoutesRecognized r); Preactivation rs; RouterEmits e] m
  = handle_all
      [RouterEmits (IsRoutesRecognized r); Preactivation rs; RouterEmits e] m.
Proof. reflexivity. Qed.

(** The subscriber of [router.events] can only throw what the store
    throws: over a store whose [dispatch] always returns, every input is
    delivered. *)
Lemma router_event_returns (e : RouterEvent) (m : Machine) :
  (forall sigma a, reply_throws (dispatch sigma a) = false) ->
  outcome (handle (RouterEmits e) m) = Returned tt.
Proof.
  intros N. destruct e as [r|c|x|n]; cbn [handle onRouterEvent].
  - reflexivity.
  - rewrite dispatchRouterCancel_eq. cbn. now rewrite N.
  - rewrite dispatchRouterError_eq. cbn. now rewrite N.
  - reflexivity.
Qed.

Lemma delivered_all (inputs : list Input) : forall m : Machine,
  (forall sigma a, reply_throws (dispatch sigma a) = false) ->
  delivered true inputs m = inputs.
Proof.
  induction inputs as [|i inputs IH]; intros m N; [reflexivity|].
  cbn [delivered]. rewrite andb_false_r. cbn zeta.
  assert (S : stays_subscribed i (handle i m) = true).
  { destruct i as [rs|e|sigma s|v]; try reflexivity.
    cbn [stays_subscribed]. now rewrite router_event_returns. }
  rewrite S. cbn [andb]. now rewrite IH.
Qed.

(** ** The navigation payload *)

Lemma navigation_action_origin (i : Input) (b : Bridge) a :
  In a (handle_actions i b) ->
  type a = ROUTER_NAVIGATION ->
  exists rs e, i = Preactivation rs /\ a = commit_action rs e.
Proof.
  destruct i as [rs|[r|c|x|n]|sigma s|u]; cbn [handle_actions In];
    intros H T; try contradiction.
  - destruct (lastRoutesRecognized b) as [e|]; [|contradiction].
    destruct (hook_commits b); [|contradiction].
    destruct H as [<-|[]]. now exists rs, e.
  - destruct H as [<-|[]]. discriminate.
  - destruct H as [<-|[]]. discriminate.
Qed.

Lemma navigation_payload_of_handled (inputs : list Input) :
  forall (m : Machine) (a : RouterAction),
  In a (dispatched (snd (handle_all inputs m))) ->
  type a = ROUTER_NAVIGATION ->
  exists rs,
    In (Preactivation rs) inputs /\
    payload_routerState (payload a) = Some (serialize rs) /\
    payload_event_state (payload a) = Some (serialize (serialize rs)) /\
    (payload_event_state (payload a) = payload_routerState (payload a) <->
     serialize (serialize rs) = serialize rs).
Proof.
  induction inputs as [|i inputs IH]; intros m a; [intros []|].
  rewrite handle_all_cons. cbn [snd]. rewrite dispatched_app, handle_dispatched.
  intros H T. apply in_app_or in H. destruct H as [H|H].
  - destruct (@navigation_action_origin _ _ _ H T) as (rs & e & -> & ->).
    exists rs. split; [now left|].
    cbn [commit_action payload payload_routerState payload_event_state
         rr_state].
    repeat split; congruence.
  - destruct (IH _ _ H T) as (rs & A & B). exists rs.
    split; [now right|exact B].
Qed.

(** C9.  Every [ROUTER_NAVIGATION] action the module dispatches comes from
    a pre-activation; its [routerState] is the snapshot serialized once,
    its [event.state] the snapshot serialized twice, and the two are equal
    exactly when serializing the serialized snapshot changes nothing. *)
Theorem navigation_payload_serialized_twice (inputs : list Input) :
  forall (m : Machine) (a : RouterAction),
  In a (dispatched (snd (run inputs m))) ->
  type a = ROUTER_NAVIGATION ->
  exists rs,
    In (Preactivation rs) inputs /\
    payload_routerState (payload a) = Some (serialize rs) /\
    payload_event_state (payload a) = Some (serialize (serialize rs)) /\
    (payload_event_state (payload a) = payload_routerState (payload a) <->
     serialize (serialize rs) = serialize rs).
Proof.
  intros m a H T. unfold run in H. rewrite run_from_delivered in H.
  destruct (navigation_payload_of_handled _ m a H T) as (rs & I & P).
  exists rs. split; [|exact P]. exact (delivered_incl true inputs m _ I).
Qed.

(** ** Definedness of the observed store state *)

Lemma handle_keeps_storeState (i : Input) (m : Machine) :
  storeState (this m) <> None ->
  storeState (this (final (handle i m))) <> None.
Proof.
  intros D.
  destruct i as [rs|[r|c|x|n]|sigma s|u]; cbn [handle onRouterEvent].
  - unfold bind.
    assert (K : storeState (this (final (beforePreactivation rs m))) <> None).
    { rewrite beforePreactivation_eq. unfold hook_result.
      destruct (storeState (this m)) as [s|] eqn:U; [|now elim D].
      assert (K1 : storeState (this (serialized_into rs m)) <> None)
        by (rewrite serialized_into_storeState; congruence).
      destruct (st_routerReducer s) as [slot|];
        [destruct (navigationTriggeredByDispatch (this m))|];
        try exact K1;
        (destruct (lastRoutesRecognized (this m)); [|exact K1]);
        cbn; now apply observed_defined. }
    now destruct (beforePreactivation rs m) as [[a|e] f l].
  - exact D.
  - rewrite dispatchRouterCancel_eq. cbn. now apply observed_defined.
  - rewrite dispatchRouterError_eq. cbn. now apply observed_defined.
  - exact D.
  - unfold bind. cbn [outcome final log].
    rewrite listener_storeState. discriminate.
  - exact D.
Qed.

Lemma handle_all_keeps_storeState (inputs : list Input) : forall m : Machine,
  storeState (this m) <> None ->
  storeState (this (fst (handle_all inputs m))) <> None.
Proof.
  induction inputs as [|i inputs IH]; intros m D; [exact D|].
  rewrite handle_all_cons. cbn [fst]. apply IH.
  now apply handle_keeps_storeState.
Qed.

Lemma run_keeps_storeState (inputs : list Input) : forall m : Machine,
  storeState (this m) <> None ->
  storeState (this (fst (run inputs m))) <> None.
Proof.
  intros m D. unfold run. rewrite run_from_delivered.
  now apply handle_all_keeps_storeState.
Qed.

Lemma deliver_keeps_storeState (l : list StoreState) : forall m : Machine,
  storeState (this m) <> None ->
  storeState (this (final (deliver l m))) <> None.
Proof.
  induction l as [|s l IH]; intros m D; [exact D|].
  cbn [deliver]. unfold bind. rewrite listener_returns.
  cbn [final]. apply IH. rewrite listener_storeState. discriminate.
Qed.

Lemma deliver_defines_storeState (l : list StoreState) (m : Machine) :
  l <> [] -> storeState (this (final (deliver l m))) <> None.
Proof.
  destruct l as [|s l]; [intros N; now elim N|intros _].
  cbn [deliver]. unfold bind. rewrite listener_returns.
  cbn [final]. apply deliver_keeps_storeState.
  rewrite listener_storeState. discriminate.
Qed.

Lemma handle_all_silent (inputs : list Input) : forall m : Machine,
  forallb silent inputs = true ->
  storeState (this (fst (handle_all inputs m))) = storeState (this m).
Proof.
  induction inputs as [|i inputs IH]; intros m Q; [reflexivity|].
  cbn [forallb] in Q. apply andb_prop in Q. destruct Q as [Qi Q].
  rewrite handle_all_cons. cbn [fst]. rewrite IH by exact Q.
  destruct i as [rs|[r|c|x|n]|sigma s|u]; try discriminate; reflexivity.
Qed.

Lemma run_silent (inputs : list Input) : forall m : Machine,
  forallb silent inputs = true ->
  storeState (this (fst (run inputs m))) = storeState (this m).
Proof.
  intros m Q. unfold run. rewrite run_from_delivered.
  apply handle_all_silent. now apply delivered_forallb.
Qed.

(** C10.  [shouldDispatchRouterNavigation] reads a key of
    [this.storeState] unchecked: it throws a [TypeError] exactly when the
    field is still [undefined].  One delivered store state is enough for
    the field to stay defined; a store that hands its state to a new
    subscriber defines it inside the constructor; with a store that does
    not, a hook that fires before any state arrives throws. *)
Theorem decision_needs_observed_state :
  (forall m : Machine,
      outcome (shouldDispatchRouterNavigation m) = Thrown TypeError <->
      storeState (this m) = None) /\
  (forall s m inputs,
      storeState (this (fst (run inputs (final (listener s m))))) <> None) /\
  (forall sigma u inputs,
      subscribe sigma <> [] ->
      storeState (this (fst (run inputs (final (construct sigma u)))))
      <> None) /\
  (forall sigma u inputs rs,
      subscribe sigma = [] ->
      forallb silent inputs = true ->
      outcome (beforePreactivation rs
                 (fst (run inputs (final (construct sigma u)))))
      = Thrown TypeError).
Proof.
  split; [|split; [|split]].
  - intros m. rewrite shouldDispatchRouterNavigation_eq.
    destruct (storeState (this m)); cbn; split; congruence.
  - intros s m inputs. apply run_keeps_storeState.
    rewrite listener_storeState. discriminate.
  - intros sigma u inputs N. apply run_keeps_storeState.
    unfold construct, setUpStoreStateListener. rewrite bind_read.
    now apply deliver_defines_storeState.
  - intros sigma u inputs rs E Q.
    rewrite beforePreactivation_eq. unfold hook_result.
    rewrite run_silent by exact Q.
    unfold construct, setUpStoreStateListener. rewrite bind_read.
    cbn [store]. rewrite E. reflexivity.
Qed.










(** ** The rollback payload *)

(** The [storeState] of a cancel or error payload is the field as it is
    when the event arrives: the last state the listener was handed. *)
Lemma rollback_carries_last_observed (m : Machine) :
  (forall c,
      map (fun a => payload_storeState (payload a))
          (dispatched (log (dispatchRouterCancel c m)))
      = [storeState (this m)]) /\
  (forall x,
      map (fun a => payload_storeState (payload a))
          (dispatched (log (dispatchRouterError x m)))
      = [storeState (this m)]).
Proof.
  split; intros e.
  - now rewrite dispatchRouterCancel_eq.
  - now rewrite dispatchRouterError_eq.
Qed.

Lemma handle_preactivation_final (rs : RouterStateSnapshot) (m : Machine) :
  final (handle (Preactivation rs) m) = final (beforePreactivation rs m).
Proof.
  cbn [handle]. unfold bind.
  now destruct (beforePreactivation rs m) as [[a|e] f l].
Qed.

Lemma hook_final_storeState (rs : RouterStateSnapshot) (m : Machine) e :
  hook_commits (this m) = true ->
  lastRoutesRecognized (this m) = Some e ->
  storeState (this (final (beforePreactivation rs m))) =
  observed (reply_emits (dispatch (store m) (commit_action rs e)))
    (storeState (this m)).
Proof.
  intros C L. rewrite beforePreactivation_eq.
  unfold hook_result, hook_commits in *. rewrite L.
  destruct (storeState (this m)) as [s|] eqn:U; [|discriminate].
  destruct (st_routerReducer s) as [slot|];
    [destruct (navigationTriggeredByDispatch (this m)); [discriminate|]|];
    unfold dispatch_result, serialized_into;
    cbn [final this storeState with_this set_routerState store];
    now rewrite U.
Qed.

(** So a commit that makes the store emit comes between the state before
    the navigation and the one the cancel carries. *)
Lemma cancel_after_commit_carries_emitted (m : Machine) (r : RoutesRecognized)
      (rs : RouterStateSnapshot) (c : NavigationCancel) :
  hook_commits (this m) = true ->
  map (fun a => payload_storeState (payload a))
      (filter (about ROUTER_CANCEL (nc_id c))
         (dispatched
            (snd (run [RouterEmits (IsRoutesRecognized r); Preactivation rs;
                       RouterEmits (IsNavigationCancel c)] m))))
  = [observed (reply_emits (dispatch (store m) (commit_action rs r)))
       (storeState (this m))].
Proof.
  intros C.
  rewrite run_of_a_lifecycle, !handle_all_cons. cbn [handle_all snd].
  rewrite !dispatched_app.
  rewrite !handle_dispatched. rewrite app_nil_r.
  cbn [dispatched app handle_actions].
  set (m1 := final (handle (RouterEmits (IsRoutesRecognized r)) m)).
  change (lastRoutesRecognized (this m1)) with (Some r).
  change (hook_commits (this m1)) with (hook_commits (this m)).
  rewrite C. cbn [app filter].
  assert (A1 : about ROUTER_CANCEL (nc_id c) (commit_action rs r) = false)
    by reflexivity.
  assert (A2 : forall a b,
             about ROUTER_CANCEL (nc_id c)
               ({| type := ROUTER_CANCEL; payload := CancelPayload a b c |}
                : RouterAction)
             = true).
  { intros a b. unfold about. cbn [type payload payload_event_id].
    now rewrite Nat.eqb_refl. }
  rewrite A1, A2. cbn [map payload payload_storeState]. f_equal.
  rewrite handle_preactivation_final.
  now rewrite (@hook_final_storeState rs m1 r).
Qed.

(** ** The dispatch guard between inputs *)

(** Outside a dispatch of the module [dispatchTriggeredByRouter] is clear:
    no handler leaves it set, so a state the host application makes the
    store emit never finds it set. *)
Lemma listener_keeps_dispatch_guard (s : StoreState) (m : Machine) :
  dispatchTriggeredByRouter (this (final (listener s m))) =
  dispatchTriggeredByRouter (this m).
Proof.
  rewrite listener_eq. cbn zeta.
  destruct (slot_url s) as [u|]; [|reflexivity].
  now destruct (dispatchTriggeredByRouter (this m) || (router_url m =? u)).
Qed.

Lemma deliver_keeps_dispatch_guard (l : list StoreState) :
  forall m : Machine,
  dispatchTriggeredByRouter (this (final (deliver l m))) =
  dispatchTriggeredByRouter (this m).
Proof.
  induction l as [|s l IH]; intros m; [reflexivity|].
  cbn [deliver]. unfold bind. rewrite listener_returns.
  cbn [final]. now rewrite IH, listener_keeps_dispatch_guard.
Qed.

Lemma handle_clears_dispatch_guard (i : Input) (m : Machine) :
  dispatchTriggeredByRouter (this m) = false ->
  dispatchTriggeredByRouter (this (final (handle i m))) = false.
Proof.
  intros G.
  destruct i as [rs|[r|c|x|n]|sigma s|u];
    [rewrite handle_preactivation_final|..]; cbn [handle onRouterEvent].
  - rewrite beforePreactivation_eq.
    unfold hook_result.
    destruct (storeState (this m)) as [s|]; [|exact G].
    destruct (st_routerReducer s) as [slot|];
      [destruct (navigationTriggeredByDispatch (this m))|];
      try exact G;
      now destruct (lastRoutesRecognized (this m)).
  - exact G.
  - now rewrite dispatchRouterCancel_eq.
  - now rewrite dispatchRouterError_eq.
  - exact G.
  - unfold bind. cbn [outcome final log].
    now rewrite listener_keeps_dispatch_guard.
  - exact G.
Qed.

Lemma dispatch_guard_clear_between_inputs (inputs : list Input) :
  forall (sigma : Sigma) (u : string),
  dispatchTriggeredByRouter
    (this (fst (run inputs (final (construct sigma u))))) = false.
Proof.
  intros sigma u.
  assert (G : dispatchTriggeredByRouter (this (final (construct sigma u)))
              = false).
  { unfold construct, setUpStoreStateListener. rewrite bind_read.
    now rewrite deliver_keeps_dispatch_guard. }
  unfold run. rewrite run_from_delivered.
  set (l := delivered true inputs (final (construct sigma u))).
  clearbody l. revert G. generalize (final (construct sigma u)).
  induction l as [|i l IH]; intros m G; [exact G|].
  rewrite handle_all_cons. cbn [fst]. apply IH.
  now apply handle_clears_dispatch_guard.
Qed.

(** ** The type strings on the wire *)

(** C2, evaluated.  Commits carry ["ROUTER_NAVIGATION"] and cancels
    ["ROUTER_CANCEL"]; the action of a navigation error carries
    ["ROUTE_ERROR"], the value of the constant [ROUTER_ERROR], which is not
    the string ["ROUTER_ERROR"]. *)
Theorem dispatched_type_strings (m : Machine) :
  (forall rs e, type (commit_action rs e) = "ROUTER_NAVIGATION") /\
  (forall c,
      map type (dispatched (log (dispatchRouterCancel c m)))
      = ["ROUTER_CANCEL"]) /\
  (forall x,
      map type (dispatched (log (dispatchRouterError x m)))
      = ["ROUTE_ERROR"]) /\
  (ROUTER_ERROR =? "ROUTER_ERROR") = false.
Proof.
  repeat split.
  - intros c. now rewrite dispatchRouterCancel_eq.
  - intros x. now rewrite dispatchRouterError_eq.
Qed.

(** * Further properties *)

(** ** The reducer *)

Lemma routerReducer_handled (s : option RouterReducerState)
      (a : RouterAction) :
  handled a = true -> routerReducer s a = Some (slot_of a).
Proof.
  unfold handled, routerReducer, slot_of. cbn [existsb].
  rewrite orb_false_r, orb_assoc. now intros ->.
Qed.

Lemma routerReducer_unhandled (s : option RouterReducerState)
      (a : RouterAction) :
  handled a = false -> routerReducer s a = s.
Proof.
  unfold handled, routerReducer. cbn [existsb].
  rewrite orb_false_r, orb_assoc. now intros ->.
Qed.

Lemma handle_actions_handled (i : Input) (b : Bridge) (a : RouterAction) :
  In a (handle_actions i b) -> handled a = true.
Proof.
  destruct i as [rs|[r|c|x|n]|sigma s|u]; cbn [handle_actions In];
    intros H; try contradiction.
  - destruct (lastRoutesRecognized b) as [e|]; [|contradiction].
    destruct (hook_commits b); [|contradiction].
    now destruct H as [<-|[]].
  - now destruct H as [<-|[]].
  - now destruct H as [<-|[]].
Qed.

Lemma reducer_handles_handled_actions (inputs : list Input) :
  forall (m : Machine) (a : RouterAction) (s : option RouterReducerState),
  In a (dispatched (snd (handle_all inputs m))) ->
  handled a = true /\
  routerReducer s a =
  Some {| rrs_state := payload_routerState (payload a);
          rrs_navigationId := payload_event_id (payload a) |}.
Proof.
  induction inputs as [|i inputs IH]; intros m a s; [intros []|].
  rewrite handle_all_cons. cbn [snd]. rewrite dispatched_app, handle_dispatched.
  intros H. apply in_app_or in H. destruct H as [H|H].
  - apply handle_actions_handled in H. split; [exact H|].
    now apply routerReducer_handled.
  - now apply (IH (final (handle i m))).
Qed.

(** X1.  Whatever the module dispatches, [routerReducer] handles: for every
    action of every run the reducer replaces the slot, whatever it held, by
    the [routerState] and the [event.id] of the payload. *)
Theorem reducer_handles_every_dispatched_action (inputs : list Input) :
  forall (m : Machine) (a : RouterAction) (s : option RouterReducerState),
  In a (dispatched (snd (run inputs m))) ->
  handled a = true /\
  routerReducer s a =
  Some {| rrs_state := payload_routerState (payload a);
          rrs_navigationId := payload_event_id (payload a) |}.
Proof.
  intros m a s H. unfold run in H. rewrite run_from_delivered in H.
  exact (reducer_handles_handled_actions _ m a s H).
Qed.

Lemma reduce_all_app (l1 l2 : list RouterAction)
      (s : option RouterReducerState) :
  reduce_all (l1 ++ l2) s = reduce_all l2 (reduce_all l1 s).
Proof. apply fold_left_app. Qed.

(** X2.  Over a sequence of actions the last handled action wins: what came
    before it, and the state the reducer started from, do not matter; a
    sequence without a handled action leaves the state as it is, and an
    action typed ["ROUTER_ERROR"] is not handled. *)
Theorem routerReducer_last_action_wins :
  (forall (l l' : list RouterAction) (a : RouterAction)
          (s : option RouterReducerState),
      handled a = true ->
      reduce_all (l ++ a :: l') s = reduce_all l' (Some (slot_of a))) /\
  (forall (l : list RouterAction) (s : option RouterReducerState),
      forallb (fun a => negb (handled a)) l = true ->
      reduce_all l s = s) /\
  (forall (s : option RouterReducerState) (p : Payload),
      routerReducer s {| type := "ROUTER_ERROR"; payload := p |} = s).
Proof.
  split; [|split].
  - intros l l' a s H. rewrite reduce_all_app.
    unfold reduce_all at 1. cbn [fold_left].
    now rewrite routerReducer_handled.
  - induction l as [|a l IH]; intros s H; [reflexivity|].
    cbn [forallb] in H. apply andb_prop in H. destruct H as [Ha Hl].
    unfold reduce_all. cbn [fold_left].
    rewrite routerReducer_unhandled by now destruct (handled a).
    now apply IH.
  - reflexivity.
Qed.

(** ** The hook *)

Lemma handle_preactivation_log (rs : RouterStateSnapshot) (m : Machine) :
  log (handle (Preactivation rs) m) = log (beforePreactivation rs m).
Proof.
  cbn [handle]. unfold bind.
  destruct (beforePreactivation rs m) as [[a|e] f l]; cbn [outcome log];
    [apply app_nil_r|reflexivity].
Qed.

Lemma routing_step_is_silent (i : Input) (m : Machine) (s : StoreState)
      (slot : RouterReducerState) :
  storeState (this m) = Some s ->
  st_routerReducer s = Some slot ->
  navigationTriggeredByDispatch (this m) = true ->
  is_routing i = true ->
  log (handle i m) = [] /\
  storeState (this (final (handle i m))) = Some s /\
  navigationTriggeredByDispatch (this (final (handle i m))) = true /\
  dispatchTriggeredByRouter (this (final (handle i m))) =
  dispatchTriggeredByRouter (this m).
Proof.
  intros U R G Q.
  destruct i as [rs|[r|c|x|n]|sigma s'|u]; try discriminate.
  - rewrite handle_preactivation_log, handle_preactivation_final,
      beforePreactivation_eq.
    unfold hook_result. rewrite U, R, G. cbn.
    repeat split; assumption.
  - cbn. repeat split; assumption.
  - cbn. repeat split; assumption.
  - cbn. repeat split; assumption.
Qed.

Lemma skipped_hooks_of_handled (inputs : list Input) :
  forall (m : Machine) (s : StoreState) (slot : RouterReducerState),
  storeState (this m) = Some s ->
  st_routerReducer s = Some slot ->
  navigationTriggeredByDispatch (this m) = true ->
  forallb is_routing inputs = true ->
  snd (handle_all inputs m) = [] /\
  navigationTriggeredByDispatch (this (fst (handle_all inputs m))) = true /\
  storeState (this (fst (handle_all inputs m))) = Some s.
Proof.
  induction inputs as [|i inputs IH]; intros m s slot U R G Q.
  - cbn. repeat split; assumption.
  - cbn [forallb] in Q. apply andb_prop in Q. destruct Q as [Qi Q].
    destruct (routing_step_is_silent i m U R G Qi) as (L & U' & G' & _).
    rewrite handle_all_cons. cbn [fst snd]. rewrite L. cbn [app].
    now apply (IH (final (handle i m)) s slot).
Qed.

(** X3.  The hook does not clear [navigationTriggeredByDispatch] when it
    skips the commit.  While the slot is present and the guard is set, every
    pre-activation is skipped, those of later navigations too: with no
    store emission and no terminal event in between, the module makes no
    call at all and the guard stays set. *)
Theorem skipped_hooks_keep_guard (inputs : list Input) :
  forall (m : Machine) (s : StoreState) (slot : RouterReducerState),
  storeState (this m) = Some s ->
  st_routerReducer s = Some slot ->
  navigationTriggeredByDispatch (this m) = true ->
  forallb is_routing inputs = true ->
  snd (run inputs m) = [] /\
  navigationTriggeredByDispatch (this (fst (run inputs m))) = true /\
  storeState (this (fst (run inputs m))) = Some s.
Proof.
  intros m s slot U R G Q. unfold run. rewrite run_from_delivered.
  apply skipped_hooks_of_handled with (slot := slot); try assumption.
  now apply delivered_forallb.
Qed.

(** X4.  The hook stores the serialized snapshot before anything else: it
    is in [routerState] however the hook ends.  The hook never answers
    [false], never calls [navigateByUrl] and calls the store at most
    once. *)
Theorem hook_records_and_permits (rs : RouterStateSnapshot) (m : Machine) :
  let r := beforePreactivation rs m in
  routerState (this (final r)) = Some (serialize rs) /\
  (outcome r = Returned true \/ exists x, outcome r = Thrown x) /\
  navigations (log r) = [] /\
  length (log r) <= 1.
Proof.
  cbn zeta. rewrite beforePreactivation_eq. unfold hook_result.
  destruct (storeState (this m)) as [s|].
  2: { cbn. repeat split; try lia. right. now eexists. }
  assert (K : forall e : RoutesRecognized,
    let d := dispatch_result ROUTER_NAVIGATION
               (payload (commit_action rs e)) (serialized_into rs m) in
    let r : Run bool :=
      {| outcome := match outcome d with
                    | Returned _ => Returned true
                    | Thrown x => Thrown x
                    end;
         final := final d; log := log d |} in
    routerState (this (final r)) = Some (serialize rs) /\
    (outcome r = Returned true \/ exists x, outcome r = Thrown x) /\
    navigations (log r) = [] /\ length (log r) <= 1).
  { intros e. cbn. repeat split; try lia.
    destruct (reply_throws _); [right; now eexists|now left]. }
  assert (T : let r : Run bool := throw TypeError (serialized_into rs m) in
    routerState (this (final r)) = Some (serialize rs) /\
    (outcome r = Returned true \/ exists x, outcome r = Thrown x) /\
    navigations (log r) = [] /\ length (log r) <= 1).
  { cbn. repeat split; try lia. right. now eexists. }
  destruct (st_routerReducer s) as [slot|].
  - destruct (navigationTriggeredByDispatch (this m)).
    + cbn. repeat split; try lia. now left.
    + destruct (lastRoutesRecognized (this m)) as [e|]; [apply K|apply T].
  - destruct (lastRoutesRecognized (this m)) as [e|]; [apply K|apply T].
Qed.

(** X5.  The hook has no [catch]: when it commits, its answer is [true] if
    [store.dispatch] returns and the exception of the store if it throws;
    either way the store was called once with the commit, and both guards
    are clear afterwards. *)
Theorem hook_passes_on_store_exception (rs : RouterStateSnapshot)
        (m : Machine) (e : RoutesRecognized) :
  hook_commits (this m) = true ->
  lastRoutesRecognized (this m) = Some e ->
  let r := beforePreactivation rs m in
  outcome r =
    (if reply_throws (dispatch (store m) (commit_action rs e))
     then Thrown StoreThrew else Returned true) /\
  dispatched (log r) = [commit_action rs e] /\
  dispatchTriggeredByRouter (this (final r)) = false /\
  navigationTriggeredByDispatch (this (final r)) = false.
Proof.
  intros C L. cbn zeta. rewrite hook_dispatched, L, C.
  rewrite beforePreactivation_eq. unfold hook_result, hook_commits in *.
  rewrite L.
  destruct (storeState (this m)) as [s|]; [|discriminate].
  destruct (st_routerReducer s) as [slot|];
    [destruct (navigationTriggeredByDispatch (this m)); [discriminate|]|];
    cbn; (destruct (reply_throws _); repeat split).
Qed.

(** ** What a run leaves in the fields *)

Lemma hook_routerState (rs : RouterStateSnapshot) (m : Machine) :
  routerState (this (final (beforePreactivation rs m))) = Some (serialize rs).
Proof.
  rewrite beforePreactivation_eq. unfold hook_result.
  destruct (storeState (this m)) as [s|]; [|reflexivity].
  destruct (st_routerReducer s) as [slot|];
    [destruct (navigationTriggeredByDispatch (this m)); [reflexivity|]|];
    now destruct (lastRoutesRecognized (this m)).
Qed.

Lemma handle_routerState (i : Input) (m : Machine) :
  routerState (this (final (handle i m))) =
  match i with
  | Preactivation rs => Some (serialize rs)
  | _ => routerState (this m)
  end.
Proof.
  destruct i as [rs|[r|c|x|n]|sigma s|u].
  - rewrite handle_preactivation_final.
    apply hook_routerState.
  - reflexivity.
  - cbn [handle onRouterEvent]. now rewrite dispatchRouterCancel_eq.
  - cbn [handle onRouterEvent]. now rewrite dispatchRouterError_eq.
  - reflexivity.
  - cbn [handle]. unfold bind. cbn [outcome final log].
    rewrite listener_eq. cbn zeta.
    destruct (slot_url s) as [v|]; [|reflexivity].
    now destruct (dispatchTriggeredByRouter _ || _).
  - reflexivity.
Qed.

Lemma handle_all_routerState (inputs : list Input) : forall m : Machine,
  routerState (this (fst (handle_all inputs m))) =
  last_snapshot inputs (routerState (this m)).
Proof.
  induction inputs as [|i inputs IH]; intros m; [reflexivity|].
  rewrite handle_all_cons. cbn [fst]. rewrite IH, handle_routerState.
  unfold last_snapshot. cbn [fold_left]. now destruct i.
Qed.

Lemma run_routerState (inputs : list Input) : forall m : Machine,
  routerState (this (fst (run inputs m))) =
  last_snapshot inputs (routerState (this m)).
Proof.
  intros m. unfold run. rewrite run_from_delivered.
  rewrite handle_all_routerState. apply delivered_last_snapshot.
Qed.

Lemma handle_all_lastRoutesRecognized (inputs : list Input) :
  forall m : Machine,
  lastRoutesRecognized (this (fst (handle_all inputs m))) =
  last_recognized inputs (lastRoutesRecognized (this m)).
Proof.
  induction inputs as [|i inputs IH]; intros m; [reflexivity|].
  rewrite handle_all_cons. cbn [fst].
  now rewrite IH, handle_lastRoutesRecognized.
Qed.

(** X6.  Only the hook writes [routerState].  After any inputs the field
    holds the serialized snapshot of the last pre-activation, or what it
    held before if there was none, and that is the [routerState] of the
    cancel or error action dispatched next: [undefined] when no hook has
    run yet. *)
Theorem rollback_carries_last_snapshot (inputs : list Input) (m : Machine) :
  let m' := fst (run inputs m) in
  routerState (this m') = last_snapshot inputs (routerState (this m)) /\
  (forall c,
      map (fun a => payload_routerState (payload a))
          (dispatched (log (dispatchRouterCancel c m')))
      = [last_snapshot inputs (routerState (this m))]) /\
  (forall x,
      map (fun a => payload_routerState (payload a))
          (dispatched (log (dispatchRouterError x m')))
      = [last_snapshot inputs (routerState (this m))]).
Proof.
  cbn zeta. split; [apply run_routerState|split]; intros e.
  - rewrite dispatchRouterCancel_eq. cbn. now rewrite run_routerState.
  - rewrite dispatchRouterError_eq. cbn. now rewrite run_routerState.
Qed.

(** X7.  Only a [RoutesRecognized] event that reaches the subscriber of
    [router.events] writes [lastRoutesRecognized], and nothing clears it.
    A commit takes its [id], [url] and [urlAfterRedirects] from the last
    such event the module has received, also when the hook that dispatches
    it belongs to a later navigation; over a store whose [dispatch] never
    throws that is the last one among the inputs so far. *)
Theorem commit_carries_last_recognized (inputs : list Input) (m : Machine)
        (rs : RouterStateSnapshot) (a : RouterAction) :
  In a (dispatched (log (beforePreactivation rs (fst (run inputs m))))) ->
  exists e,
    last_recognized (delivered true inputs m) (lastRoutesRecognized (this m))
    = Some e /\
    a = commit_action rs e /\
    payload_event_id (payload a) = rr_id e /\
    ((forall sigma b, reply_throws (dispatch sigma b) = false) ->
     last_recognized inputs (lastRoutesRecognized (this m)) = Some e).
Proof.
  unfold run.
  rewrite run_from_delivered, hook_dispatched,
    handle_all_lastRoutesRecognized.
  destruct (last_recognized (delivered true inputs m)
              (lastRoutesRecognized (this m))) as [e|] eqn:L;
    [|intros []].
  destruct (hook_commits _); [|intros []].
  intros [<-|[]]. exists e. repeat split.
  intros N. now rewrite (delivered_all inputs m N) in L.
Qed.

(** ** The calls of a run *)

Lemma handle_navigations (i : Input) (m : Machine) :
  dispatchTriggeredByRouter (this m) = false ->
  navigations (log (handle i m)) =
  match i with
  | StoreEmits _ s => wanted (router_url m) s
  | _ => []
  end.
Proof.
  intros G. destruct i as [rs|[r|c|x|n]|sigma s|u].
  - rewrite handle_preactivation_log. apply hook_navigations.
  - reflexivity.
  - cbn [handle onRouterEvent]. now rewrite dispatchRouterCancel_eq.
  - cbn [handle onRouterEvent]. now rewrite dispatchRouterError_eq.
  - reflexivity.
  - cbn [handle]. unfold bind. cbn [outcome final log app].
    rewrite listener_eq. cbn zeta. unfold wanted.
    cbn [this router_url]. rewrite G. cbn [orb].
    destruct (slot_url s) as [v|]; [|reflexivity].
    now destruct (router_url m =? v).
  - reflexivity.
Qed.

Lemma handle_router_url (i : Input) (m : Machine) :
  router_url (final (handle i m)) =
  match i with
  | UrlBecomes u => u
  | _ => router_url m
  end.
Proof.
  destruct i as [rs|[r|c|x|n]|sigma s|u].
  - rewrite handle_preactivation_final, beforePreactivation_eq.
    unfold hook_result.
    destruct (storeState (this m)) as [s|]; [|reflexivity].
    destruct (st_routerReducer s) as [slot|];
      [destruct (navigationTriggeredByDispatch (this m)); [reflexivity|]|];
      now destruct (lastRoutesRecognized (this m)).
  - reflexivity.
  - cbn [handle onRouterEvent]. now rewrite dispatchRouterCancel_eq.
  - cbn [handle onRouterEvent]. now rewrite dispatchRouterError_eq.
  - reflexivity.
  - cbn [handle]. unfold bind. cbn [outcome final log].
    rewrite listener_eq. cbn zeta.
    destruct (slot_url s) as [v|]; [|reflexivity].
    now destruct (dispatchTriggeredByRouter _ || _).
  - reflexivity.
Qed.

Lemma navigations_of_handled (inputs : list Input) : forall m : Machine,
  dispatchTriggeredByRouter (this m) = false ->
  navigations (snd (handle_all inputs m)) = requests (router_url m) inputs.
Proof.
  induction inputs as [|i inputs IH]; intros m G; [reflexivity|].
  rewrite handle_all_cons. cbn [snd]. rewrite navigations_app.
  rewrite handle_navigations by exact G.
  rewrite IH by now apply handle_clears_dispatch_guard.
  rewrite handle_router_url.
  destruct i as [rs|[r|c|x|n]|sigma s|u]; reflexivity.
Qed.

(** X8.  The [navigateByUrl] calls of a run are those of its store
    emissions and of nothing else: one call for each emission whose slot
    URL is not the URL the router has at that moment, in order, with that
    URL.  Router events and the hook make none, and an emission repeated
    before the router has moved is a request repeated. *)
Theorem run_navigations (inputs : list Input) : forall m : Machine,
  dispatchTriggeredByRouter (this m) = false ->
  navigations (snd (run inputs m)) = requests (router_url m) inputs.
Proof.
  intros m G. unfold run. rewrite run_from_delivered.
  rewrite navigations_of_handled by exact G. apply delivered_requests.
Qed.

Lemma dispatches_bounded_by_handled (inputs : list Input) :
  forall m : Machine,
  length (dispatched (snd (handle_all inputs m))) <=
  length (filter may_dispatch inputs).
Proof.
  induction inputs as [|i inputs IH]; intros m; [cbn; lia|].
  rewrite handle_all_cons. cbn [snd filter].
  rewrite dispatched_app, length_app, handle_dispatched.
  specialize (IH (final (handle i m))).
  destruct i as [rs|[r|c|x|n]|sigma s|u]; cbn [handle_actions may_dispatch];
    cbn [length]; try lia.
  destruct (lastRoutesRecognized (this m)); [|cbn [length]; lia].
  destruct (hook_commits (this m)); cbn [length]; lia.
Qed.

(** X9.  The module calls the store at most once for each run of the hook
    and each terminal event, and for nothing else: a store emission, a
    [RoutesRecognized] or any other router event never makes it
    dispatch. *)
Theorem dispatches_bounded_by_inputs (inputs : list Input) :
  forall m : Machine,
  length (dispatched (snd (run inputs m))) <=
  length (filter may_dispatch inputs).
Proof.
  intros m. unfold run. rewrite run_from_delivered.
  pose proof (dispatches_bounded_by_handled (delivered true inputs m) m).
  pose proof (delivered_filter_length may_dispatch true inputs m). lia.
Qed.

Lemma handle_log_guards (i : Input) (m : Machine) (e : Logged) :
  dispatchTriggeredByRouter (this m) = false ->
  In e (log (handle i m)) ->
  match call e with
  | Dispatch _ => dispatchTriggeredByRouter (fields e) = true
  | NavigateByUrl _ =>
      dispatchTriggeredByRouter (fields e) = false /\
      navigationTriggeredByDispatch (fields e) = true
  end.
Proof.
  intros G. destruct i as [rs|[r|c|x|n]|sigma s|u].
  - rewrite handle_preactivation_log, beforePreactivation_eq.
    unfold hook_result.
    destruct (storeState (this m)) as [s|]; [|intros []].
    destruct (st_routerReducer s) as [slot|];
      [destruct (navigationTriggeredByDispatch (this m))|];
      try (destruct (lastRoutesRecognized (this m)));
      cbn; intros H; try contradiction; now destruct H as [<-|[]].
  - intros [].
  - cbn [handle onRouterEvent]. rewrite dispatchRouterCancel_eq.
    cbn. now intros [<-|[]].
  - cbn [handle onRouterEvent]. rewrite dispatchRouterError_eq.
    cbn. now intros [<-|[]].
  - intros [].
  - cbn [handle]. unfold bind. cbn [outcome final log app].
    rewrite listener_eq. cbn zeta. cbn [this router_url]. rewrite G.
    cbn [orb].
    destruct (slot_url s) as [v|]; [|intros []].
    destruct (router_url m =? v); cbn; intros H; [contradiction|].
    destruct H as [<-|[]]. cbn. now split.
  - intros [].
Qed.

Lemma handled_calls_carry_their_guard (inputs : list Input) :
  forall (m : Machine) (e : Logged),
  dispatchTriggeredByRouter (this m) = false ->
  In e (snd (handle_all inputs m)) ->
  match call e with
  | Dispatch _ => dispatchTriggeredByRouter (fields e) = true
  | NavigateByUrl _ =>
      dispatchTriggeredByRouter (fields e) = false /\
      navigationTriggeredByDispatch (fields e) = true
  end.
Proof.
  induction inputs as [|i inputs IH]; intros m e G; [intros []|].
  rewrite handle_all_cons. cbn [snd]. intros H. apply in_app_or in H.
  destruct H as [H|H].
  - now apply (handle_log_guards i m).
  - apply (IH (final (handle i m))); [|exact H].
    now apply handle_clears_dispatch_guard.
Qed.

(** X10.  Every call is made under its guard: during any run that starts
    outside a dispatch, the store is called with
    [dispatchTriggeredByRouter] set, and [navigateByUrl] is called with
    that guard clear and [navigationTriggeredByDispatch] set. *)
Theorem calls_carry_their_guard (inputs : list Input) :
  forall (m : Machine) (e : Logged),
  dispatchTriggeredByRouter (this m) = false ->
  In e (snd (run inputs m)) ->
  match call e with
  | Dispatch _ => dispatchTriggeredByRouter (fields e) = true
  | NavigateByUrl _ =>
      dispatchTriggeredByRouter (fields e) = false /\
      navigationTriggeredByDispatch (fields e) = true
  end.
Proof.
  intros m e G H. unfold run in H. rewrite run_from_delivered in H.
  exact (handled_calls_carry_their_guard _ m e G H).
Qed.

(** ** The constructor *)

Lemma last_cons_default {A} (l : list A) : forall a d : A,
  last (a :: l) d = last l a.
Proof.
  induction l as [|b l IH]; intros a d; [reflexivity|].
  change (last (a :: b :: l) d) with (last (b :: l) d).
  now rewrite !IH.
Qed.

Lemma observed_last (l : list StoreState) : forall o : option StoreState,
  observed l o = last (map Some l) o.
Proof.
  induction l as [|s l IH]; intros o; [reflexivity|].
  cbn [map]. rewrite last_cons_default. apply IH.
Qed.

Lemma listener_unguarded (s : StoreState) (m : Machine) :
  dispatchTriggeredByRouter (this m) = false ->
  let r := listener s m in
  navigations (log r) = wanted (router_url m) s /\
  router_url (final r) = router_url m /\
  routerState (this (final r)) = routerState (this m) /\
  navigationTriggeredByDispatch (this (final r)) =
  match wanted (router_url m) s with
  | [] => navigationTriggeredByDispatch (this m)
  | _ :: _ => true
  end.
Proof.
  intros G. cbn zeta. rewrite listener_eq. cbn zeta. unfold wanted.
  rewrite G. cbn [orb].
  destruct (slot_url s) as [v|]; [|repeat split].
  destruct (router_url m =? v); repeat split.
Qed.

Lemma deliver_unguarded (l : list StoreState) : forall m : Machine,
  dispatchTriggeredByRouter (this m) = false ->
  let r := deliver l m in
  outcome r = Returned tt /\
  dispatched (log r) = [] /\
  navigations (log r) = flat_map (wanted (router_url m)) l /\
  storeState (this (final r)) = observed l (storeState (this m)) /\
  routerState (this (final r)) = routerState (this m) /\
  lastRoutesRecognized (this (final r)) = lastRoutesRecognized (this m) /\
  navigationTriggeredByDispatch (this (final r)) =
  match flat_map (wanted (router_url m)) l with
  | [] => navigationTriggeredByDispatch (this m)
  | _ :: _ => true
  end.
Proof.
  induction l as [|s l IH]; intros m G; [cbn; repeat split|].
  cbn zeta. cbn [deliver]. unfold bind. rewrite listener_returns.
  cbn [outcome final log flat_map].
  destruct (listener_unguarded s m G) as (N & U & R & T).
  assert (G' : dispatchTriggeredByRouter (this (final (listener s m))) = false)
    by now rewrite listener_keeps_dispatch_guard.
  destruct (IH (final (listener s m)) G') as (O & D & N' & S' & R' & L' & T').
  rewrite dispatched_app, navigations_app, listener_dispatched, D, N, N', U.
  rewrite O, S', R', L', R, T', U, T.
  rewrite listener_storeState, listener_lastRoutesRecognized.
  repeat split.
  destruct (wanted (router_url m) s) as [|w ws]; cbn [app]; [reflexivity|].
  now destruct (flat_map (wanted (router_url m)) l).
Qed.

(** X11.  The constructor never dispatches and never throws.  It hands the
    states the store delivers on subscription to the listener, asking the
    router for each slot URL that is not [router.url]; it leaves
    [routerState] and [lastRoutesRecognized] undefined and
    [dispatchTriggeredByRouter] clear, and [storeState] is the last state
    delivered, if any. *)
Theorem constructor_only_navigates (sigma : Sigma) (u : string) :
  let r := construct sigma u in
  outcome r = Returned tt /\
  dispatched (log r) = [] /\
  navigations (log r) = flat_map (wanted u) (subscribe sigma) /\
  storeState (this (final r)) = last (map Some (subscribe sigma)) None /\
  routerState (this (final r)) = None /\
  lastRoutesRecognized (this (final r)) = None /\
  dispatchTriggeredByRouter (this (final r)) = false /\
  navigationTriggeredByDispatch (this (final r)) =
  match flat_map (wanted u) (subscribe sigma) with
  | [] => false
  | _ :: _ => true
  end.
Proof.
  cbn zeta. unfold construct, setUpStoreStateListener. rewrite bind_read.
  cbn [store].
  set (m0 := {| this := initial; router_url := u; store := sigma |}).
  destruct (deliver_unguarded (subscribe sigma) m0 eq_refl)
    as (O & D & N & S' & R & L & T).
  rewrite deliver_keeps_dispatch_guard.
  rewrite O, D, N, S', R, L, T. cbn [m0 router_url this initial storeState].
  rewrite observed_last. repeat split.
Qed.

(** X12.  [dispatchRouterAction] calls the store once and touches nothing
    but the guards and what the store itself changes: [routerState],
    [lastRoutesRecognized] and [router.url] are as before, and [storeState]
    is the last state the store emitted during the call, or the former one
    when it emitted none. *)
Theorem dispatch_changes_only_observed_state (ty : string) (p : Payload)
        (m : Machine) :
  let r := dispatchRouterAction ty p m in
  let reply := dispatch (store m) {| type := ty; payload := p |} in
  dispatched (log r) = [ {| type := ty; payload := p |} ] /\
  length (log r) = 1 /\
  routerState (this (final r)) = routerState (this m) /\
  lastRoutesRecognized (this (final r)) = lastRoutesRecognized (this m) /\
  router_url (final r) = router_url m /\
  store (final r) = reply_store reply /\
  storeState (this (final r)) =
  last (map Some (reply_emits reply)) (storeState (this m)).
Proof.
  cbn zeta. rewrite dispatchRouterAction_eq. unfold dispatch_result.
  cbn. rewrite observed_last. repeat split.
Qed.

End Properties.

(** * The module over the reducer store *)

Section OverReducerStore.

Context {Tree App Err : Type}.
Context {serializer : RouterStateSerializer Tree}.

Local Abbreviation RouterStateSnapshot := (RouterStateSnapshot Tree).
Local Abbreviation RoutesRecognized := (RoutesRecognized Tree).
Local Abbreviation StoreState := (StoreState Tree App).
Local Abbreviation Machine := (Machine Tree App StoreState).
Local Abbreviation Input := (Input Tree App Err StoreState).
Local Abbreviation beforePreactivation :=
  (beforePreactivation (Err := Err) (the_store := ReducerStore Tree App Err)).
Local Abbreviation dispatchRouterCancel :=
  (dispatchRouterCancel (Err := Err)
     (the_store := ReducerStore Tree App Err)).
Local Abbreviation handle :=
  (handle (Err := Err) (the_store := ReducerStore Tree App Err)).
Local Abbreviation run :=
  (run (Err := Err) (the_store := ReducerStore Tree App Err)).
Local Abbreviation construct :=
  (construct (Err := Err) (the_store := ReducerStore Tree App Err)).
Local Abbreviation commit_action := (commit_action (App := App) (Err := Err)).

Lemma reducer_store_step (i : Input) (m : Machine) :
  storeState (this m) = Some (store m) ->
  coherent i ->
  storeState (this (final (handle i m))) = Some (store (final (handle i m))).
Proof.
  intros Y C. destruct i as [rs|[r|c|x|n]|sigma s|u].
  - rewrite handle_preactivation_final, beforePreactivation_eq.
    assert (Y' : storeState (this (serialized_into rs m)) =
                 Some (store (serialized_into rs m))) by exact Y.
    unfold hook_result.
    destruct (storeState (this m)) as [s|]; [|exact Y'].
    destruct (st_routerReducer s) as [slot|];
      [destruct (navigationTriggeredByDispatch (this m)); [exact Y'|]|];
      (destruct (lastRoutesRecognized (this m)); [reflexivity|exact Y']).
  - exact Y.
  - cbn [handle onRouterEvent]. now rewrite dispatchRouterCancel_eq.
  - cbn [handle onRouterEvent]. now rewrite dispatchRouterError_eq.
  - exact Y.
  - cbn in C. subst sigma.
    cbn [handle]. unfold bind. cbn [outcome final log].
    rewrite listener_storeState. rewrite listener_eq. cbn zeta.
    destruct (slot_url s) as [v|]; [|reflexivity].
    now destruct (dispatchTriggeredByRouter _ || _).
  - exact Y.
Qed.

Lemma reducer_store_handle_all (inputs : list Input) : forall m : Machine,
  storeState (this m) = Some (store m) ->
  Forall coherent inputs ->
  storeState (this (fst (handle_all inputs m))) =
  Some (store (fst (handle_all inputs m))).
Proof.
  induction inputs as [|i inputs IH]; intros m Y C; [exact Y|].
  rewrite handle_all_cons. cbn [fst]. inversion C as [|? ? Ci Cs]; subst.
  apply IH; [|exact Cs]. now apply reducer_store_step.
Qed.

Lemma reducer_store_run (inputs : list Input) : forall m : Machine,
  storeState (this m) = Some (store m) ->
  Forall coherent inputs ->
  storeState (this (fst (run inputs m))) = Some (store (fst (run inputs m))).
Proof.
  intros m Y C. unfold run. rewrite run_from_delivered.
  apply reducer_store_handle_all; [exact Y|].
  apply Forall_forall. intros i I.
  apply (proj1 (Forall_forall _ _) C).
  exact (delivered_incl true inputs m _ I).
Qed.

(** X13.  Over the reducer store the module never loses track of the
    store: from construction on, whatever the router does and whatever
    states the host makes the store emit, [storeState] is the state the
    store holds. *)
Theorem reducer_store_in_sync (sigma : StoreState) (u : string)
        (inputs : list Input) :
  Forall coherent inputs ->
  let m := fst (run inputs (final (construct sigma u))) in
  storeState (this m) = Some (store m).
Proof.
  intros C. cbn zeta. apply reducer_store_run; [|exact C].
  unfold construct, setUpStoreStateListener. rewrite bind_read.
  cbn [store subscribe ReducerStore deliver]. unfold bind.
  rewrite listener_returns. cbn [final ret].
  rewrite listener_storeState. rewrite listener_eq. cbn zeta.
  destruct (slot_url sigma) as [v|]; [|reflexivity].
  now destruct (dispatchTriggeredByRouter _ || _).
Qed.

(** X14.  A commit reaches the slot: when the hook commits over the
    reducer store it answers [true], the slot holds the serialized
    snapshot and the id of the recognized navigation, the rest of the
    store state is untouched, and the module has observed that state.
    Once the router is at the URL of the serialized snapshot, the store
    handing that state over again makes the module call nothing. *)
Theorem commit_reaches_the_slot (rs : RouterStateSnapshot) (m : Machine)
        (e : RoutesRecognized) :
  hook_commits (this m) = true ->
  lastRoutesRecognized (this m) = Some e ->
  let r := beforePreactivation rs m in
  outcome r = Returned true /\
  st_routerReducer (store (final r)) =
    Some {| rrs_state := Some (serialize rs); rrs_navigationId := rr_id e |} /\
  st_app (store (final r)) = st_app (store m) /\
  storeState (this (final r)) = Some (store (final r)) /\
  snd (run [ UrlBecomes (snap_url (serialize rs));
             StoreEmits (store (final r)) (store (final r)) ] (final r)) = [].
Proof.
  intros C L. cbn zeta. rewrite beforePreactivation_eq.
  unfold hook_result, hook_commits in *. rewrite L.
  destruct (storeState (this m)) as [s|]; [|discriminate].
  assert (K : forall d : Run Tree App Err StoreState bool,
    d = (let d := dispatch_result (the_store := ReducerStore Tree App Err)
                    ROUTER_NAVIGATION (payload (commit_action rs e))
                    (serialized_into rs m) in
         {| outcome := match outcome d with
                       | Returned _ => Returned true
                       | Thrown x => Thrown x
                       end;
            final := final d; log := log d |}) ->
    outcome d = Returned true /\
    st_routerReducer (store (final d)) =
      Some {| rrs_state := Some (serialize rs);
              rrs_navigationId := rr_id e |} /\
    st_app (store (final d)) = st_app (store m) /\
    storeState (this (final d)) = Some (store (final d)) /\
    snd (run [ UrlBecomes (snap_url (serialize rs));
               StoreEmits (store (final d)) (store (final d)) ] (final d))
    = []).
  { intros d ->. cbn zeta. repeat split.
    unfold run. rewrite run_without_router_events by reflexivity.
    rewrite !handle_all_cons. cbn [handle_all snd fst].
    rewrite app_nil_r.
    cbn [handle]. unfold bind. cbn [outcome final log app].
    rewrite listener_eq. cbn zeta.
    cbn [store final dispatch_result dispatch ReducerStore reply_store].
    rewrite routerReducer_handled by reflexivity.
    unfold slot_url, slot_of.
    cbn [st_routerReducer rrs_state this router_url
         dispatchTriggeredByRouter orb].
    cbn [payload].
    change (payload_routerState (payload (commit_action rs e)))
      with (Some (serialize rs)).
    cbn iota. now rewrite String.eqb_refl. }
  destruct (st_routerReducer s) as [slot|];
    [destruct (navigationTriggeredByDispatch (this m)); [discriminate|]|];
    now apply K.
Qed.

(** X15.  [routerReducer] treats a cancel like a commit: over the reducer
    store the slot then holds the snapshot of the canceled navigation and
    its id.  The router has not moved, so when the store next hands its
    state to the listener the module asks for the canceled URL again. *)
Theorem canceled_url_is_requested_again (c : NavigationCancel) (m : Machine)
        (rs : RouterStateSnapshot) :
  routerState (this m) = Some rs ->
  router_url m <> snap_url rs ->
  let r := dispatchRouterCancel c m in
  st_routerReducer (store (final r)) =
    Some {| rrs_state := Some rs; rrs_navigationId := nc_id c |} /\
  navigations (log r) = [] /\
  navigations
    (snd (run [ StoreEmits (store (final r)) (store (final r)) ] (final r)))
  = [snap_url rs].
Proof.
  intros R N. cbn zeta. rewrite dispatchRouterCancel_eq.
  unfold dispatch_result.
  cbn [final store log navigations dispatch ReducerStore reply_store
       st_routerReducer].
  rewrite routerReducer_handled by reflexivity.
  unfold slot_of. cbn [payload payload_routerState payload_event_id].
  rewrite R. repeat split.
  unfold run. rewrite run_without_router_events by reflexivity.
  rewrite handle_all_cons. cbn [handle_all snd]. rewrite app_nil_r.
  cbn [handle]. unfold bind. cbn [outcome final log app].
  rewrite listener_eq. cbn zeta.
  unfold slot_url.
  cbn [st_routerReducer rrs_state this router_url
       dispatchTriggeredByRouter orb].
  apply String.eqb_neq in N. rewrite N. reflexivity.
Qed.

End OverReducerStore.


(** * The claims at concrete inputs *)

Import Sample.

(** C1 with the guard set and the slot gone.  The constructor has asked for
    [/b] and set [navigationTriggeredByDispatch]; the slot then disappears
    from the store state; the hook of that very navigation dispatches a
    commit although the guard is set. *)
Lemma guard_set_yet_commit_dispatched :
  navigations (log (construct (Err := Err) (slot_at "/b" ["b"] 0) "/a"))
  = ["/b"] /\
  navigationTriggeredByDispatch (this slot_dropped) = true /\
  dispatched (log (beforePreactivation (Err := Err) (at_url "/b" ["b"])
                     slot_dropped))
  = [commit_action (at_url "/b" ["b"]) (recognized 1 "/b" ["b"])] /\
  skips_exactly_when_guarded (Err := Err) (at_url "/b" ["b"]) slot_dropped
  = false.
Proof. repeat split. Qed.

(** C1 with the guard set and the slot present (scenario B): the hook of
    the navigation the module asked for dispatches nothing. *)
Lemma hook_skips_iff_witness :
  storeState (this awaiting) = Some (slot_at "/b" ["b"] 0) /\
  lastRoutesRecognized (this awaiting) = Some (recognized 1 "/b" ["b"]) /\
  dispatched (log (beforePreactivation (Err := Err) (at_url "/b" ["b"])
                     awaiting)) = [].
Proof.
  split; [reflexivity|split; [reflexivity|]].
  apply (hook_skips_iff (Err := Err) (at_url "/b" ["b"]) awaiting
           eq_refl eq_refl).
  split; [discriminate|reflexivity].
Defined.




(** C3 over a store whose [dispatch] throws: the cancel of navigation 2
    ends the subscription, and the cancel of navigation 3 gets no
    action. *)
Example throwing_subscriber_is_unsubscribed :
  delivered (the_store := LazyStore Tree App Err) true two_cancels failing
  = [RouterEmits (IsNavigationCancel (canceled 2 "/c"))] /\
  map (fun a => payload_event_id (payload a))
      (dispatched
         (snd (run (the_store := LazyStore Tree App Err)
                 two_cancels failing)))
  = [2] /\
  cancel_events 3 two_cancels = 1 /\
  count_of ROUTER_CANCEL 3
    (dispatched
       (snd (run (the_store := LazyStore Tree App Err)
               two_cancels failing)))
  = 0.
Proof. repeat split. Qed.

(** C4, evaluated in scenario C.  Before the navigation the module has
    observed the state that holds [/a]; the commit makes the store emit the
    state that holds [/c], and that is the [storeState] of the cancel. *)
Lemma cancel_carries_state_of_the_attempt :
  storeState (this settled) = Some (slot_at "/a" ["a"] 1) /\
  map (fun a => payload_storeState (payload a))
      (filter (about ROUTER_CANCEL 2)
         (dispatched (snd (run scenario_C settled))))
  = [Some (slot_at "/c" ["c"] 2)] /\
  option_map slot_url (Some (slot_at "/c" ["c"] 2))
  = Some (Some "/c").
Proof. repeat split. Qed.

(** C2 at work (scenario D): navigation 3 is recognized, reaches the hook
    and fails; the error action is typed ["ROUTE_ERROR"]. *)
Example failed_navigation_types :
  map (fun a => type a)
      (dispatched
         (snd (run [ RouterEmits (IsRoutesRecognized (recognized 3 "/d" ["d"]));
                     Preactivation (at_url "/d" ["d"]);
                     RouterEmits (IsNavigationError (failed 3 "/d")) ]
                 settled)))
  = ["ROUTER_NAVIGATION"; "ROUTE_ERROR"].
Proof. reflexivity. Qed.

(** C5 at work: a dispatch that throws, with both guards set before. *)
Example throwing_dispatch_clears_guards :
  let m := {| this := {| routerState := None;
                         storeState := Some no_slot;
                         lastRoutesRecognized := None;
                         dispatchTriggeredByRouter := true;
                         navigationTriggeredByDispatch := true |};
              router_url := "/a";
              store := true |} in
  let r := dispatchRouterAction (the_store := LazyStore Tree App Err)
             ROUTER_CANCEL
             (CancelPayload None (Some no_slot) (canceled 2 "/c")) m in
  outcome r = Thrown StoreThrew /\
  dispatchTriggeredByRouter (this (final r)) = false /\
  navigationTriggeredByDispatch (this (final r)) = false.
Proof. repeat split. Qed.

(** C6: a state that holds [/b] reaches the listener during a dispatch of
    the module, the router at [/a]; the listener calls nothing. *)
Lemma own_dispatch_never_navigates_witness :
  dispatchTriggeredByRouter (this dispatching) = true /\
  slot_url (slot_at "/b" ["b"] 7) = Some "/b" /\
  router_url dispatching = "/a" /\
  log (listener (Err := Err) (slot_at "/b" ["b"] 7) dispatching) = [].
Proof.
  repeat (split; [reflexivity|]).
  apply (proj1 (@own_dispatch_never_navigates Tree App Err
                  (StoreState Tree App) _)
           (slot_at "/b" ["b"] 7) dispatching eq_refl).
Defined.

(** C8 at work: the same emission outside a dispatch is one request for
    [/b], made with the second guard set. *)
Example listener_navigates_to_slot_url :
  map (fun e => (call e, navigationTriggeredByDispatch (fields e)))
      (log (listener (Err := Err) (slot_at "/b" ["b"] 7) settled))
  = [(NavigateByUrl "/b", true)].
Proof. reflexivity. Qed.

(** C9 for the commit of scenario C. *)
Lemma navigation_payload_serialized_twice_witness :
  exists rs,
    In (Preactivation rs) scenario_C /\
    payload_routerState
      (payload (commit_action (App := App) (Err := Err) (at_url "/c" ["c"])
                  (recognized 2 "/c" ["c"])))
    = Some (serialize rs).
Proof.
  assert (I : In (commit_action (at_url "/c" ["c"]) (recognized 2 "/c" ["c"]))
                (dispatched (snd (run scenario_C settled))))
    by (vm_compute; left; reflexivity).
  destruct (navigation_payload_serialized_twice scenario_C settled _
              I eq_refl) as (rs & A & B & _).
  exists rs. split; [exact A|exact B].
Defined.

(** C9 at work: the default serializer gives the two fields the same
    value, a serializer that is not idempotent does not. *)
Example default_serializer_fields_coincide :
  map (fun a => (option_map snap_url (payload_routerState (payload a)),
                 option_map snap_url (payload_event_state (payload a))))
      (dispatched
         (log (beforePreactivation (Err := Err) (at_url "/b" ["b"])
                 slot_dropped)))
  = [(Some "/b", Some "/b")].
Proof. reflexivity. Qed.

Example marking_serializer_fields_differ :
  map (fun a => (option_map snap_url
                   (payload_routerState (payload a)),
                 option_map snap_url
                   (payload_event_state (payload a))))
      (dispatched
         (log (beforePreactivation (serializer := MarkingSerializer Tree)
                 (Err := Err) (at_url "/b" ["b"]) slot_dropped)))
  = [(Some "#/b", Some "##/b")].
Proof. reflexivity. Qed.

(** C10: over a store that hands nothing to a new subscriber the first hook
    throws; over the reducer store the decision returns. *)
Lemma decision_needs_observed_state_witness :
  outcome
    (beforePreactivation (the_store := LazyStore Tree App Err)
       (at_url "/a" ["a"])
       (fst (run (the_store := LazyStore Tree App Err)
               [RouterEmits (IsRoutesRecognized (recognized 1 "/a" ["a"]))]
               (final (construct (the_store := LazyStore Tree App Err)
                         false "/a")))))
  = Thrown TypeError /\
  outcome (shouldDispatchRouterNavigation (Err := Err) settled)
  = Returned true.
Proof.
  split; [|reflexivity].
  apply (proj2 (proj2 (proj2
           (@decision_needs_observed_state Tree App Err bool _
              (LazyStore Tree App Err))))); reflexivity.
Defined.

(** * The further properties at concrete inputs *)

(** X1 for the cancel of scenario C. *)
Lemma reducer_handles_every_dispatched_action_witness :
  routerReducer None cancel_of_c
  = Some {| rrs_state := Some (at_url "/c" ["c"]); rrs_navigationId := 2 |}.
Proof.
  assert (I : In cancel_of_c (dispatched (snd (run scenario_C settled))))
    by (vm_compute; right; left; reflexivity).
  exact (proj2 (reducer_handles_every_dispatched_action scenario_C settled
                  cancel_of_c None I)).
Defined.

(** X2: a commit, a cancel and an action of the host; the cancel wins. *)
Lemma routerReducer_last_action_wins_witness :
  reduce_all ([commit_of_b] ++ cancel_of_c :: [host_action]) None
  = Some {| rrs_state := Some (at_url "/c" ["c"]); rrs_navigationId := 2 |}.
Proof.
  refine (eq_trans
            (proj1 (@routerReducer_last_action_wins Tree App Err)
               [commit_of_b] [host_action] cancel_of_c None eq_refl) _).
  exact (proj1 (proj2 (@routerReducer_last_action_wins Tree App Err))
           [host_action] (Some (slot_of cancel_of_c)) eq_refl).
Defined.

(** X3: the hook of the navigation the module asked for is skipped, and so
    is the hook of the navigation the router recognizes next. *)
Lemma skipped_hooks_keep_guard_witness :
  snd (run (Err := Err)
         [ Preactivation (at_url "/b" ["b"]);
           UrlBecomes "/b";
           RouterEmits (IsRoutesRecognized (recognized 2 "/c" ["c"]));
           Preactivation (at_url "/c" ["c"]) ] awaiting) = [] /\
  navigationTriggeredByDispatch
    (this (fst (run (Err := Err)
                  [ Preactivation (at_url "/b" ["b"]);
                    UrlBecomes "/b";
                    RouterEmits (IsRoutesRecognized (recognized 2 "/c" ["c"]));
                    Preactivation (at_url "/c" ["c"]) ] awaiting))) = true.
Proof.
  destruct (skipped_hooks_keep_guard (Err := Err)
              [ Preactivation (at_url "/b" ["b"]);
                UrlBecomes "/b";
                RouterEmits (IsRoutesRecognized (recognized 2 "/c" ["c"]));
                Preactivation (at_url "/c" ["c"]) ] awaiting
              (s := slot_at "/b" ["b"] 0)
              eq_refl eq_refl eq_refl eq_refl) as (A & B & _).
  split; [exact A|exact B].
Defined.

(** X5 over a store whose [dispatch] throws. *)
Lemma hook_passes_on_store_exception_witness :
  outcome (beforePreactivation (the_store := LazyStore Tree App Err)
             (at_url "/c" ["c"]) failing)
  = Thrown StoreThrew /\
  navigationTriggeredByDispatch
    (this (final (beforePreactivation (the_store := LazyStore Tree App Err)
                    (at_url "/c" ["c"]) failing))) = false.
Proof.
  destruct (hook_passes_on_store_exception
              (the_store := LazyStore Tree App Err)
              (at_url "/c" ["c"]) failing
              (e := recognized 2 "/c" ["c"]) eq_refl eq_refl)
    as (A & _ & _ & B).
  split; [exact A|exact B].
Defined.

(** X7: the commit of the hook that follows the recognition of [/c]. *)
Lemma commit_carries_last_recognized_witness :
  exists e,
    last_recognized recognizing_c None = Some e /\
    payload_event_id (payload commit_of_c) = rr_id e.
Proof.
  assert (I : In commit_of_c
                (dispatched
                   (log (beforePreactivation (at_url "/c" ["c"])
                           (fst (run recognizing_c settled))))))
    by (vm_compute; left; reflexivity).
  destruct (commit_carries_last_recognized recognizing_c settled
              (at_url "/c" ["c"]) commit_of_c I) as (e & _ & _ & P & L).
  exists e. split; [|exact P].
  apply L. intros sigma b. reflexivity.
Defined.

(** X7 over a store whose [dispatch] throws: the cancel of navigation 2
    ends the subscription, the recognition of navigation 3 is not
    recorded, and the commit of its hook carries the id 2. *)
Example commit_after_a_throw_carries_stale_id :
  dispatched
    (log (beforePreactivation (the_store := LazyStore Tree App Err)
            (at_url "/d" ["d"])
            (fst (run (the_store := LazyStore Tree App Err)
                    canceled_then_recognized failing))))
  = [commit_action (at_url "/d" ["d"]) (recognized 2 "/c" ["c"])].
Proof. reflexivity. Qed.

(** [dispatchRouterNavigation] reads no property of [routerState]: before
    any pre-activation the default serializer hands [undefined] back, and
    the action goes out with [routerState] and [event.state] undefined. *)
Example navigation_without_snapshot :
  routerState (this unvisited) = None /\
  dispatched (log (dispatchRouterNavigation (Err := Err) unvisited))
  = [ {| type := ROUTER_NAVIGATION;
         payload := NavigationPayload None
                      {| rr_id := 2; rr_url := "/c";
                         rr_urlAfterRedirects := "/c";
                         rr_state := None |} |} ].
Proof. split; reflexivity. Qed.

(** X8: the host makes the store emit [/b] twice before the router has
    moved, and once more after; the first two are requests. *)
Lemma run_navigations_witness :
  navigations
    (snd (run (Err := Err)
            [ StoreEmits (slot_at "/b" ["b"] 7) (slot_at "/b" ["b"] 7);
              StoreEmits (slot_at "/b" ["b"] 7) (slot_at "/b" ["b"] 7);
              UrlBecomes "/b";
              StoreEmits (slot_at "/b" ["b"] 7) (slot_at "/b" ["b"] 7) ]
            settled))
  = ["/b"; "/b"].
Proof.
  rewrite (run_navigations (Err := Err) _ settled eq_refl). reflexivity.
Defined.

(** X10 for the cancel of scenario C. *)
Lemma calls_carry_their_guard_witness :
  Forall (fun e => dispatchTriggeredByRouter (fields e) = true)
         (snd (run scenario_C settled)).
Proof.
  apply Forall_forall. intros e I.
  pose proof (calls_carry_their_guard scenario_C settled e eq_refl I) as G.
  assert (D : forall x, In x (snd (run scenario_C settled)) ->
                        exists a, call x = Dispatch a).
  { vm_compute. intros x [<-|[<-|[]]]; eexists; reflexivity. }
  destruct (D e I) as (a & Ca). now rewrite Ca in G.
Defined.

(** X13 after scenario C and an emission of the host. *)
Lemma reducer_store_in_sync_witness :
  storeState
    (this (fst (run (scenario_C ++ [StoreEmits no_slot no_slot])
                  (final (construct (Err := Err) (slot_at "/a" ["a"] 1)
                            "/a")))))
  = Some no_slot.
Proof.
  rewrite (reducer_store_in_sync (Err := Err) (slot_at "/a" ["a"] 1) "/a"
             (inputs := scenario_C ++ [StoreEmits no_slot no_slot])).
  - reflexivity.
  - repeat constructor.
Defined.

(** X14 for the commit of scenario C. *)
Lemma commit_reaches_the_slot_witness :
  st_routerReducer
    (store (final (beforePreactivation (Err := Err) (at_url "/c" ["c"])
                     (fst (run recognizing_c settled)))))
  = Some {| rrs_state := Some (at_url "/c" ["c"]); rrs_navigationId := 2 |}.
Proof.
  exact (proj1 (proj2
           (commit_reaches_the_slot (Err := Err) (at_url "/c" ["c"])
              (fst (run recognizing_c settled))
              (e := recognized 2 "/c" ["c"]) eq_refl eq_refl))).
Defined.

(** X15 after the hook of scenario C: the cancel stores [/c], and the next
    emission asks for [/c] again. *)
Lemma canceled_url_is_requested_again_witness :
  navigations
    (snd (run (Err := Err)
            (scenario_C ++
             [ StoreEmits (slot_at "/c" ["c"] 2) (slot_at "/c" ["c"] 2) ])
            settled))
  = ["/c"].
Proof.
  pose proof (canceled_url_is_requested_again (Err := Err) (canceled 2 "/c")
                (fst (run (Err := Err)
                        [ RouterEmits
                            (IsRoutesRecognized (recognized 2 "/c" ["c"]));
                          Preactivation (at_url "/c" ["c"]) ] settled))
                (rs := at_url "/c" ["c"]) eq_refl) as H.
  apply H. discriminate.
Defined.
